(** * crawllm: a breadth-first website crawler that renders one Markdown file

    This development embeds the two crawler sources of the repository,
    [src/index.ts] (path-scoped, strict cleaning) and its sibling
    [src/unnamed/part_000] (host-scoped, loose cleaning), and states the
    properties of the crawl engine over that embedding.

    JavaScript strings are modelled by [string] (byte strings).  Every string
    operation of the sources searches for ASCII text only, and an ASCII byte
    never occurs inside a multi-byte UTF-8 sequence, so searching bytes and
    searching UTF-16 code units agree on where the ASCII text is found. *)

From Stdlib Require Import Ascii.
From stdpp Require Import gmap strings list relations.

Set Warnings "-register-all,-clear-no-such-hyp".

(** ** JavaScript string primitives used by the crawler *)

Module JsString.

Definition nl : string := String "010"%char "".

(** ASCII case folding, as done by a regular expression with the [i] flag
    and without the [u] flag: only [A-Z] and [a-z] are identified. *)
Definition lower_ascii (c : ascii) : ascii :=
  let n := nat_of_ascii c in
  if (65 <=? n)%nat && (n <=? 90)%nat then ascii_of_nat (n + 32) else c.

Fixpoint toLowerCase (s : string) : string :=
  match s with
  | "" => ""
  | String c s' => String (lower_ascii c) (toLowerCase s')
  end.

(** [s.startsWith(p)] *)
Fixpoint startsWith (s p : string) {struct p} : bool :=
  match p, s with
  | "", _ => true
  | String a p', String b s' => bool_decide (a = b) && startsWith s' p'
  | String _ _, "" => false
  end.

(** [s.endsWith(suf)]; this is what a pattern anchored with [$] and no
    [m] flag tests: the match must stop at the very end of the input. *)
Fixpoint endsWith (s suf : string) : bool :=
  bool_decide (s = suf)
  || match s with
     | "" => false
     | String _ s' => endsWith s' suf
     end.

Fixpoint drop (n : nat) (s : string) : string :=
  match n, s with
  | O, _ => s
  | S n', String _ s' => drop n' s'
  | S _, "" => ""
  end.

(** [s.replace(pat, rep)] with a string pattern: only the first (leftmost)
    occurrence of [pat], wherever it stands in [s], is replaced. *)
Fixpoint replace (pat rep s : string) : string :=
  if startsWith s pat then rep +:+ drop (String.length pat) s
  else match s with
       | "" => ""
       | String c s' => String c (replace pat rep s')
       end.

(** [s.replace(/\/?$/, '/')]: the leftmost position from which an optional
    slash reaches the end of the input is either the final slash or, when
    there is none, the end itself; the match is replaced by one slash. *)
Fixpoint ensureTrailingSlash (s : string) : string :=
  match s with
  | "" => "/"
  | String c s' =>
      if bool_decide (s = "/") then "/" else String c (ensureTrailingSlash s')
  end.

(** [n] spaces (U+0020). *)
Fixpoint spaces (n : nat) : string :=
  match n with
  | O => ""
  | S n' => String " "%char (spaces n')
  end.

(** Removing every trailing U+0020 of a text, as the URL standard does for
    an opaque path. *)
Fixpoint stripTrailingSpaces (s : string) : string :=
  match s with
  | "" => ""
  | String c s' =>
      let kept := stripTrailingSpaces s' in
      if bool_decide (c = " "%char) && bool_decide (kept = "") then ""
      else String c kept
  end.

(** The white space of a regular expression's [\s], read on UTF-8: the
    one-byte characters TAB, LF, VT, FF, CR and SPACE, the two-byte U+00A0,
    and the three-byte U+1680, U+2000 to U+200A, U+2028, U+2029, U+202F,
    U+205F, U+3000 and U+FEFF. *)
Definition space1 (c : ascii) : bool :=
  let n := nat_of_ascii c in
  ((9 <=? n)%nat && (n <=? 13)%nat) || (n =? 32)%nat.

Definition space2 (c1 c2 : ascii) : bool :=
  (nat_of_ascii c1 =? 194)%nat && (nat_of_ascii c2 =? 160)%nat.

Definition space3 (c1 c2 c3 : ascii) : bool :=
  let n1 := nat_of_ascii c1 in
  let n2 := nat_of_ascii c2 in
  let n3 := nat_of_ascii c3 in
  ((n1 =? 225)%nat && (n2 =? 154)%nat && (n3 =? 128)%nat)
  || ((n1 =? 226)%nat && (n2 =? 128)%nat
      && (((128 <=? n3)%nat && (n3 <=? 138)%nat)
          || (n3 =? 168)%nat || (n3 =? 169)%nat || (n3 =? 175)%nat))
  || ((n1 =? 226)%nat && (n2 =? 129)%nat && (n3 =? 159)%nat)
  || ((n1 =? 227)%nat && (n2 =? 128)%nat && (n3 =? 128)%nat)
  || ((n1 =? 239)%nat && (n2 =? 187)%nat && (n3 =? 191)%nat).

(** [c] put in front of the first word of a list of words. *)
Definition cons_word (c : ascii) (ws : list string) : list string :=
  match ws with
  | [] => [String c ""]
  | w :: ws' => String c w :: ws'
  end.

(** [s.split(/\s/)]: the runs of [s] between white-space characters. *)
Fixpoint splitWhitespace (s : string) : list string :=
  match s with
  | "" => [""]
  | String c1 r1 =>
      if space1 c1 then "" :: splitWhitespace r1
      else
        match r1 with
        | String c2 r2 =>
            if space2 c1 c2 then "" :: splitWhitespace r2
            else
              match r2 with
              | String c3 r3 =>
                  if space3 c1 c2 c3 then "" :: splitWhitespace r3
                  else cons_word c1 (splitWhitespace r1)
              | "" => cons_word c1 (splitWhitespace r1)
              end
        | "" => cons_word c1 (splitWhitespace r1)
        end
  end.

(** [s.includes(pat)] *)
Fixpoint includes (s pat : string) : bool :=
  startsWith s pat
  || match s with
     | "" => false
     | String _ s' => includes s' pat
     end.

End JsString.

(** ** The platform's URL class

    A URL record as the WHATWG URL standard has it.  The parser itself is
    platform code and is taken as a parameter of the crawler below; the
    getters, the [hash] setter and the serializer are written out. *)

Record URL := mkURL {
  scheme : string;
  username : string;
  password : string;
  host : option string;
  port : option string;
  path : string;
  query : option string;
  fragment : option string
}.

Global Instance URL_eq_dec : EqDecision URL.
Proof. solve_decision. Defined.

Module Url.

(** [u.hostname] *)
Definition hostname (u : URL) : string := default "" (host u).

(** [u.pathname] *)
Definition pathname (u : URL) : string := path u.

(** Whether the path of [u] is opaque, that is a plain text and not a list
    of segments.  [path] holds the path as [pathname] shows it: a list of
    segments shows as the empty text or as a text that starts with a
    slash, and the parser never makes an opaque path that starts with one. *)
Definition has_opaque_path (u : URL) : bool :=
  negb (JsString.startsWith (path u) "/").

(** [u.hash = ''] : the fragment becomes null; and then, as the URL
    standard has it, an opaque path loses its trailing spaces when the
    query is null too. *)
Definition clear_hash (u : URL) : URL :=
  let path' :=
    if has_opaque_path u && bool_decide (query u = None)
    then JsString.stripTrailingSpaces (path u)
    else path u in
  mkURL (scheme u) (username u) (password u) (host u) (port u) path'
        (query u) None.

Definition credentials (u : URL) : string :=
  if bool_decide (username u = "" ∧ password u = "") then ""
  else username u
       +:+ (if bool_decide (password u = "") then "" else ":" +:+ password u)
       +:+ "@".

(** [u.toString()], the URL serializer.  Without a host, a path whose
    first segment is empty is kept apart from an authority by [/.]. *)
Definition toString (u : URL) : string :=
  scheme u +:+ ":"
  +:+ match host u with
      | Some h =>
          "//" +:+ credentials u +:+ h
          +:+ match port u with Some p => ":" +:+ p | None => "" end
      | None => if JsString.startsWith (path u) "//" then "/." else ""
      end
  +:+ path u
  +:+ match query u with Some q => "?" +:+ q | None => "" end
  +:+ match fragment u with Some f => "#" +:+ f | None => "" end.

(** Two URLs that differ at most in their fragment component. *)
Definition same_up_to_fragment (u1 u2 : URL) : Prop :=
  scheme u1 = scheme u2 ∧ username u1 = username u2
  ∧ password u1 = password u2 ∧ host u1 = host u2 ∧ port u1 = port u2
  ∧ path u1 = path u2 ∧ query u1 = query u2.

End Url.

(** ** Exceptions

    A JavaScript computation either returns or throws; [try_catch] is
    [try { .. } catch { .. }].  The sources meet two exceptions: the
    [TypeError] of [new URL] and the system error of [fs.writeFileSync]. *)

Inductive exn :=
| TypeError_InvalidURL
| SystemError (code : string).

Inductive result (A : Type) :=
| Returned (a : A)
| Threw (e : exn).
Arguments Returned {A} a.
Arguments Threw {A} e.

Global Instance result_ret : MRet result := @Returned.

Global Instance result_bind : MBind result := λ A B k m,
  match m with
  | Returned a => k a
  | Threw e => Threw e
  end.

Definition try_catch {A} (body : result A) (handler : result A) : result A :=
  match body with
  | Returned a => Returned a
  | Threw _ => handler
  end.

(** ** The page tree handed out by the HTML parser *)

Inductive node :=
| Text (data : string)
| Element (tag : string) (attrs : list (string * string)) (children : list node).

Record Page := mkPage { url : string; content : string }.

(** ** Selecting and removing nodes (the cheerio calls of the sources) *)

Module Dom.

(** The simple selectors that occur in the sources: a tag name, [.class],
    [#id] and [[attr="value"]].  A selector group ([nav, footer]) is a list. *)
Inductive selector :=
| SelTag (t : string)
| SelClass (c : string)
| SelId (i : string)
| SelAttrEq (a v : string).

(** [$(el).attr(name)] *)
Fixpoint attr (name : string) (attrs : list (string * string)) : option string :=
  match attrs with
  | [] => None
  | (k, v) :: rest => if bool_decide (k = name) then Some v else attr name rest
  end.

Definition matches (n : node) (sel : selector) : bool :=
  match n with
  | Text _ => false
  | Element t attrs _ =>
      match sel with
      | SelTag x => bool_decide (t = x)
      | SelClass c =>
          match attr "class" attrs with
          | Some v => bool_decide (c ∈ JsString.splitWhitespace v)
          | None => false
          end
      | SelId i => bool_decide (attr "id" attrs = Some i)
      | SelAttrEq a v => bool_decide (attr a attrs = Some v)
      end
  end.

Definition matches_group (group : list selector) (n : node) : bool :=
  existsb (matches n) group.

(** [$(group).remove()] on one node: the node disappears with its subtree
    when it matches, and otherwise the removal goes on in its children. *)
Fixpoint remove_node (group : list selector) (n : node) : option node :=
  if matches_group group n then None
  else match n with
       | Text d => Some (Text d)
       | Element t attrs children =>
           Some (Element t attrs (omap (remove_node group) children))
       end.

Definition remove (group : list selector) (doc : list node) : list node :=
  omap (remove_node group) doc.

(** [$(sel)] as the list of matching elements, in document order. *)
Fixpoint select_node (p : node → bool) (n : node) : list node :=
  (if p n then [n] else [])
  ++ match n with
     | Text _ => []
     | Element _ _ children => concat (map (select_node p) children)
     end.

Definition select (p : node → bool) (doc : list node) : list node :=
  concat (map (select_node p) doc).

(** [a[href]] *)
Definition is_anchor_with_href (n : node) : bool :=
  match n with
  | Text _ => false
  | Element t attrs _ =>
      bool_decide (t = "a") && bool_decide (is_Some (attr "href" attrs))
  end.

(** [$(element).attr('href')] for each element of [$('a[href]')]. *)
Definition anchor_hrefs (doc : list node) : list (option string) :=
  map (λ n, match n with
            | Text _ => None
            | Element _ attrs _ => attr "href" attrs
            end)
      (select is_anchor_with_href doc).

End Dom.

(** ** The crawler *)

(** The two source files of the crawler. *)
Inductive source_file :=
| IndexTs   (* src/index.ts *)
| Part000.  (* src/unnamed/part_000 *)

Global Instance source_file_eq_dec : EqDecision source_file.
Proof. solve_decision. Defined.

(** What the platform's [fetch] resolves to: [ok] and [statusText] of the
    response, and its body text ([None] when reading the body rejects). *)
Inductive response := Response (ok : bool) (statusText : string) (text : option string).

(** The constants [crawlWebsite] derives from the seed before its loop.
    [basePath] exists in src/index.ts only and is not read for part_000. *)
Record scope := mkScope { baseDomain : string; basePath : string }.

(** The mutable variables of [crawlWebsite], and [requests]: the log of the
    URLs handed to [fetchPage], oldest first (a ghost variable). *)
Record state := mkState {
  queue : list string;
  visited : gset string;
  pages : list Page;
  requests : list string
}.

Definition set_queue (q : list string) (st : state) : state :=
  mkState q (visited st) (pages st) (requests st).

(** [queue.push(u)] *)
Definition queue_push (u : string) (st : state) : state :=
  mkState (queue st ++ [u]) (visited st) (pages st) (requests st).

(** [visited.add(u)] *)
Definition visited_add (u : string) (st : state) : state :=
  mkState (queue st) ({[u]} ∪ visited st) (pages st) (requests st).

(** [pages.push(p)] *)
Definition pages_push (p : Page) (st : state) : state :=
  mkState (queue st) (visited st) (pages st ++ [p]) (requests st).

Definition log_request (u : string) (st : state) : state :=
  mkState (queue st) (visited st) (pages st) (requests st ++ [u]).

(** The selector groups removed by [cleanHtmlContent], in source order. *)
Definition cleaning_steps (v : source_file) : list (list Dom.selector) :=
  let tags := map Dom.SelTag in
  let classes := map Dom.SelClass in
  let ids := map Dom.SelId in
  let roles := map (Dom.SelAttrEq "role") in
  match v with
  | IndexTs =>
      [ tags ["nav"; "footer"];
        classes ["navigation"; "nav"; "navbar"; "menu"];
        ids ["navbar"; "navigation"; "menu"; "header"; "footer"];
        classes ["footer"];
        classes ["sidebar"; "aside"];
        tags ["aside"]; tags ["script"]; tags ["style"]; tags ["iframe"];
        tags ["video"]; tags ["audio"]; tags ["img"]; tags ["svg"];
        tags ["canvas"]; tags ["form"]; tags ["input"]; tags ["button"];
        tags ["select"]; tags ["textarea"]; tags ["link"]; tags ["meta"];
        roles ["navigation"]; roles ["banner"]; roles ["contentinfo"];
        ids ["header"; "footer"; "nav"; "navigation"; "menu"];
        classes ["social-links"; "social-media"];
        classes ["breadcrumbs"] ]
  | Part000 =>
      [ tags ["nav"; "header"; "footer"];
        classes ["navigation"; "nav"; "navbar"; "menu"];
        classes ["header"; "footer"];
        classes ["sidebar"; "aside"];
        tags ["aside"]; tags ["script"]; tags ["style"];
        roles ["navigation"]; roles ["banner"]; roles ["contentinfo"];
        ids ["header"; "footer"; "nav"; "navigation"; "menu"];
        classes ["social-links"; "social-media"];
        classes ["breadcrumbs"] ]
  end.

(** [cleanHtmlContent($)]: the removals run one after the other on the
    same tree. *)
Definition cleanHtmlContent (v : source_file) (doc : list node) : list node :=
  foldl (λ d group, Dom.remove group d) doc (cleaning_steps v).

Definition asset_extensions : list string :=
  ["jpg"; "jpeg"; "png"; "gif"; "svg"; "ico"; "css"; "js"].

(** [/\.(jpg|jpeg|png|gif|svg|ico|css|js)$/i.test(href)] *)
Definition isAssetHref (href : string) : bool :=
  existsb (λ ext, JsString.endsWith (JsString.toLowerCase href) ("." +:+ ext))
          asset_extensions.

(** [isSameDomain] of src/index.ts *)
Definition isSameDomain (sc : scope) (u : URL) : bool :=
  bool_decide (JsString.replace "www." "" (Url.hostname u)
               = JsString.replace "www." "" (baseDomain sc)).

(** [isUnderBasePath] of src/index.ts *)
Definition isUnderBasePath (sc : scope) (u : URL) : bool :=
  JsString.startsWith (JsString.ensureTrailingSlash (Url.pathname u)) (basePath sc).

(** The scope part of the condition guarding [queue.push]. *)
Definition inScope (v : source_file) (sc : scope) (u : URL) : bool :=
  match v with
  | IndexTs => isSameDomain sc u && isUnderBasePath sc u
  | Part000 => bool_decide (Url.hostname u = baseDomain sc)
  end.

(** [`# Crawled Website Content\n\n`] and the three appends per page. *)
Definition render_title : string :=
  "# Crawled Website Content" +:+ JsString.nl +:+ JsString.nl.

Definition render_append (outputMarkdown : string) (page : Page) : string :=
  let out1 := outputMarkdown +:+ ("## " +:+ url page +:+ JsString.nl +:+ JsString.nl) in
  let out2 := out1 +:+ (content page +:+ JsString.nl +:+ JsString.nl) in
  out2 +:+ ("---" +:+ JsString.nl +:+ JsString.nl).

(** The aggregation loop at the end of [crawlWebsite]. *)
Definition render (pages : list Page) : string :=
  foldl render_append render_title pages.

(** ** The domain comparison and the page section as the specification words them

    These two definitions follow the specification, not the sources; the
    properties below compare them with [isSameDomain] and [render]. *)

(** Stripping a leading [www.] label. *)
Definition strip_leading_www (hostname : string) : string :=
  if JsString.startsWith hostname "www." then JsString.drop 4 hostname
  else hostname.

Definition spec_same_domain (h1 h2 : string) : Prop :=
  strip_leading_www h1 = strip_leading_www h2.

(** Host names in which [www.] occurs, if at all, at the very start. *)
Definition www_leading_only (hostname : string) : Prop :=
  JsString.startsWith hostname "www." = true
  ∨ JsString.includes hostname "www." = false.

(** A section header with the page's URL, its content, a separator. *)
Definition spec_section (page : Page) : string :=
  "## " +:+ url page +:+ JsString.nl +:+ JsString.nl
  +:+ content page +:+ JsString.nl +:+ JsString.nl
  +:+ "---" +:+ JsString.nl +:+ JsString.nl.

Fixpoint spec_document (pages : list Page) : string :=
  match pages with
  | [] => ""
  | page :: rest => spec_section page +:+ spec_document rest
  end.

Section Crawler.

(** The platform and library collaborators: the URL parser (input and
    optional base; [None] when it throws), [fetch] over a snapshot of the
    web ([None] when the request itself fails), cheerio's [load] and
    [$.html({xml: true})], and Turndown. *)
Variable URL_parse : string → option string → option URL.
Variable fetch : string → option response.
Variable load : string → list node.
Variable html_xml : list node → string.
Variable turndown : string → string.

(** [new URL(input)] and [new URL(input, base)] *)
Definition URL_new (input : string) (base : option string) : result URL :=
  match URL_parse input base with
  | Some u => Returned u
  | None => Threw TypeError_InvalidURL
  end.

(** [normalizeUrl]: the URL without its hash fragment, and the argument
    itself when it is no URL. *)
Definition normalizeUrl (url : string) : result string :=
  try_catch
    (normalized ← URL_new url None;
     let normalized := Url.clear_hash normalized in
     mret (Url.toString normalized))
    (mret url).

(** [fetchPage]: [None] is the source's [null]. *)
Definition fetchPage (url : string) : option string :=
  match fetch url with
  | Some (Response ok _ text) => if negb ok then None else text
  | None => None
  end.

(** The callback given to [$('a[href]').each]. *)
Definition handleLink (v : source_file) (sc : scope) (currentUrl : string)
    (href : option string) (st : state) : result state :=
  match href with
  | None => mret st
  | Some href =>
      if bool_decide (href = "") then mret st
      else
        try_catch
          (if isAssetHref href then mret st
           else
             newUrlObj ← URL_new href (Some currentUrl);
             let newUrlObj := Url.clear_hash newUrlObj in
             let normalizedUrl := Url.toString newUrlObj in
             if inScope v sc newUrlObj && bool_decide (normalizedUrl ∉ visited st)
             then mret (queue_push normalizedUrl st)
             else mret st)
          (mret st)
  end.

Fixpoint each_anchor (v : source_file) (sc : scope) (currentUrl : string)
    (hrefs : list (option string)) (st : state) : result state :=
  match hrefs with
  | [] => mret st
  | href :: rest =>
      st' ← handleLink v sc currentUrl href st;
      each_anchor v sc currentUrl rest st'
  end.

(** The loop body from [const $ = load(html)] on. *)
Definition process_page (v : source_file) (sc : scope) (currentUrl html : string)
    (st : state) : result state :=
  let doc := load html in
  match v with
  | IndexTs =>
      st ← each_anchor v sc currentUrl (Dom.anchor_hrefs doc) st;
      let doc := cleanHtmlContent v doc in
      let cleanedHtml := html_xml doc in
      let markdownContent := turndown cleanedHtml in
      mret (pages_push (mkPage currentUrl markdownContent) st)
  | Part000 =>
      let doc := cleanHtmlContent v doc in
      let cleanedHtml := html_xml doc in
      let markdownContent := turndown cleanedHtml in
      let st := pages_push (mkPage currentUrl markdownContent) st in
      each_anchor v sc currentUrl (Dom.anchor_hrefs doc) st
  end.

(** [!html] *)
Definition falsy (html : option string) : bool :=
  match html with
  | None => true
  | Some h => bool_decide (h = "")
  end.

(** One pass through the body of [while (queue.length > 0)], entered after
    [queue.shift()] gave [currentUrl]. *)
Definition loop_body (v : source_file) (sc : scope) (currentUrl : string)
    (st : state) : result state :=
  if bool_decide (currentUrl ∈ visited st) then mret st
  else
    let st := log_request currentUrl (visited_add currentUrl st) in
    let html := fetchPage currentUrl in
    if falsy html then mret st
    else process_page v sc currentUrl (default "" html) st.

(** The loop; [None] when [fuel] passes do not empty the queue. *)
Fixpoint crawl_loop (v : source_file) (sc : scope) (fuel : nat) (st : state)
    : option (result state) :=
  match queue st with
  | [] => Some (Returned st)
  | currentUrl :: rest =>
      match fuel with
      | O => None
      | S fuel' =>
          match loop_body v sc currentUrl (set_queue rest st) with
          | Returned st' => crawl_loop v sc fuel' st'
          | Threw e => Some (Threw e)
          end
      end
  end.

(** The statements of [crawlWebsite] before the loop. *)
Definition crawl_init (v : source_file) (startUrl : string) : result (scope * state) :=
  normalizedStartUrl ← normalizeUrl startUrl;
  startUrlObj ← URL_new normalizedStartUrl None;
  let sc :=
    match v with
    | IndexTs =>
        mkScope (Url.hostname startUrlObj)
                (JsString.ensureTrailingSlash (Url.pathname startUrlObj))
    | Part000 => mkScope (Url.hostname startUrlObj) ""
    end in
  mret (sc, mkState [normalizedStartUrl] ∅ [] []).

(** [crawlWebsite] up to its last statement: the pages collected and the
    text it goes on to hand to [fs.writeFileSync] (the write itself is in
    [crawlWebsite_writing] below). *)
Definition crawlWebsite (v : source_file) (fuel : nat) (startUrl : string)
    : option (result (list Page * string)) :=
  match crawl_init v startUrl with
  | Threw e => Some (Threw e)
  | Returned (sc, st0) =>
      match crawl_loop v sc fuel st0 with
      | None => None
      | Some (Threw e) => Some (Threw e)
      | Some (Returned st) => Some (Returned (pages st, render (pages st)))
      end
  end.

(** One loop pass as a relation between states. *)
Definition step (v : source_file) (sc : scope) (st st' : state) : Prop :=
  ∃ currentUrl rest,
    queue st = currentUrl :: rest
    ∧ loop_body v sc currentUrl (set_queue rest st) = Returned st'.

(** The URL a link is queued under when it passes every filter but the
    visited check. *)
Definition link_target (v : source_file) (sc : scope) (currentUrl : string)
    (href : option string) : option string :=
  match href with
  | None => None
  | Some href =>
      if bool_decide (href = "") then None
      else if isAssetHref href then None
      else match URL_parse href (Some currentUrl) with
           | None => None
           | Some u =>
               let u := Url.clear_hash u in
               if inScope v sc u then Some (Url.toString u) else None
           end
  end.

(** The tree the anchors of a page are read from. *)
Definition link_source (v : source_file) (html : string) : list node :=
  match v with
  | IndexTs => load html
  | Part000 => cleanHtmlContent Part000 (load html)
  end.

Definition page_links (v : source_file) (sc : scope) (currentUrl html : string)
    : list string :=
  omap (link_target v sc currentUrl) (Dom.anchor_hrefs (link_source v html)).

(** The converted text recorded for a page. *)
Definition page_content (v : source_file) (html : string) : string :=
  turndown (html_xml (cleanHtmlContent v (load html))).

(** The effect of the [each] callback: the target of the link, if it has
    one and it is not visited yet, is appended to the queue. *)
Definition offer (w : option string) (st : state) : state :=
  match w with
  | Some w => if bool_decide (w ∉ visited st) then queue_push w st else st
  | None => st
  end.

Definition unvisited (st : state) (targets : list string) : list string :=
  filter (λ w, w ∉ visited st) targets.

(** [edge u w]: the crawler, having fetched [u], finds a link to [w]. *)
Definition edge (v : source_file) (sc : scope) (u w : string) : Prop :=
  ∃ html, fetchPage u = Some html ∧ html ≠ "" ∧ w ∈ page_links v sc u html.

Definition reachable (v : source_file) (sc : scope) (seed : string) : string → Prop :=
  rtc (edge v sc) seed.

(** What every pass of the loop keeps true, for a crawl started at [seed]. *)
Record crawl_invariant (v : source_file) (sc : scope) (seed : string)
    (st : state) : Prop := mkInvariant {
  inv_queue_reachable : ∀ u, u ∈ queue st → reachable v sc seed u;
  inv_visited_reachable : ∀ u, u ∈ visited st → reachable v sc seed u;
  inv_seed : seed ∈ visited st ∨ seed ∈ queue st;
  inv_closed : ∀ u w,
    u ∈ visited st → edge v sc u w → w ∈ visited st ∨ w ∈ queue st;
  inv_requests_nodup : NoDup (requests st);
  inv_requests : ∀ u, u ∈ requests st ↔ u ∈ visited st;
  inv_pages_nodup : NoDup (url <$> pages st);
  inv_pages : ∀ p,
    p ∈ pages st
    ↔ url p ∈ visited st
      ∧ ∃ html, fetchPage (url p) = Some html ∧ html ≠ ""
                ∧ p = mkPage (url p) (page_content v html)
}.

End Crawler.

(** ** A reference platform for concrete runs

    A parser for the part of URL syntax the examples below use: absolute
    [http(s)://host/path?query#fragment] URLs over a plain host name, and
    absolute-path references against such a base.  It is used on the inputs
    of the runs below only, where it gives what the WHATWG parser gives;
    what it does not handle it refuses.  Sites are finite tables from URLs
    to responses and from HTML text to its tree. *)

Module Sample.

(** [split_at c s]: the text before the first [c], and the text after it
    when there is one. *)
Fixpoint split_at (c : ascii) (s : string) : string * option string :=
  match s with
  | "" => ("", None)
  | String a s' =>
      if bool_decide (a = c) then ("", Some s')
      else let '(before, after) := split_at c s' in (String a before, after)
  end.

Definition host_char (c : ascii) : bool :=
  let n := nat_of_ascii c in
  ((97 <=? n)%nat && (n <=? 122)%nat) || ((48 <=? n)%nat && (n <=? 57)%nat)
  || bool_decide (c = "."%char) || bool_decide (c = "-"%char).

Fixpoint all_chars (p : ascii → bool) (s : string) : bool :=
  match s with
  | "" => true
  | String a s' => p a && all_chars p s'
  end.

Definition strip_scheme (s : string) : option (string * string) :=
  if JsString.startsWith (JsString.toLowerCase s) "https://"
  then Some ("https", JsString.drop 8 s)
  else if JsString.startsWith (JsString.toLowerCase s) "http://"
  then Some ("http", JsString.drop 7 s)
  else None.

Definition parse_absolute (s : string) : option URL :=
  let '(s1, frag) := split_at "#" s in
  let '(s2, qry) := split_at "?" s1 in
  match strip_scheme s2 with
  | None => None
  | Some (sch, rest) =>
      let '(h, p) := split_at "/" rest in
      let h := JsString.toLowerCase h in
      if bool_decide (h = "") || negb (all_chars host_char h) then None
      else Some (mkURL sch "" "" (Some h) None ("/" +:+ default "" p) qry frag)
  end.

Definition parse_reference (s : string) (base : URL) : option URL :=
  let '(s1, frag) := split_at "#" s in
  let '(s2, qry) := split_at "?" s1 in
  if JsString.startsWith s2 "/" && negb (JsString.startsWith s2 "//")
  then Some (mkURL (scheme base) "" "" (host base) None s2 qry frag)
  else None.

(** With a base, the base is parsed first and must be a URL itself. *)
Definition URL_parse (input : string) (base : option string) : option URL :=
  match base with
  | None => parse_absolute input
  | Some b =>
      match parse_absolute b with
      | None => None
      | Some bu =>
          match parse_absolute input with
          | Some u => Some u
          | None => parse_reference input bu
          end
      end
  end.

(** What the platform parser answers on one [data:] URL with three spaces
    before its fragment, given without a base; a stand-in that refuses
    every other input. *)
Definition data_parse (input : string) (base : option string) : option URL :=
  match base with
  | None =>
      if bool_decide (input = "data:text/plain,hi   #f")
      then Some (mkURL "data" "" "" None None "text/plain,hi   " None (Some "f"))
      else None
  | Some _ => None
  end.

(** [lookup_table k t]: the first entry of [t] under key [k]. *)
Fixpoint lookup_table {A} (k : string) (t : list (string * A)) : option A :=
  match t with
  | [] => None
  | (k', a) :: rest => if bool_decide (k' = k) then Some a else lookup_table k rest
  end.

(** A site: what [fetch] answers per URL (an absent URL is a network
    error), and the tree of each HTML text. *)
Record site := mkSite {
  responses : list (string * response);
  documents : list (string * list node)
}.

Definition fetch (w : site) (u : string) : option response :=
  lookup_table u (responses w).

Definition load (w : site) (html : string) : list node :=
  default [Text html] (lookup_table html (documents w)).

(** Stand-ins for the serializer and the Markdown converter: the text of
    the tree, unchanged. *)
Fixpoint text_of (n : node) : string :=
  match n with
  | Text d => d
  | Element _ _ children => foldr (λ c acc, text_of c +:+ acc) "" children
  end.

Definition html_xml (doc : list node) : string :=
  foldr (λ c acc, text_of c +:+ acc) "" doc.

Definition turndown (s : string) : string := s.

(** A file system in which nothing can be written under [/missing/]. *)
Definition writeFileSync (file data : string) : result unit :=
  if JsString.startsWith file "/missing/" then Threw (SystemError "ENOENT")
  else Returned ().

Definition crawl (w : site) (v : source_file) (fuel : nat) (startUrl : string) :=
  crawlWebsite URL_parse (fetch w) (load w) html_xml turndown v fuel startUrl.

(** The URLs of the pages a crawl returns, in order. *)
Definition crawl_urls (w : site) (v : source_file) (fuel : nat) (startUrl : string)
    : option (result (list string)) :=
  match crawl w v fuel startUrl with
  | Some (Returned (ps, _)) => Some (Returned (url <$> ps))
  | Some (Threw e) => Some (Threw e)
  | None => None
  end.

Definition ok200 (body : string) : response := Response true "OK" (Some body).
Definition notFound : response := Response false "Not Found" (Some "gone").

Definition anchor (href : string) (label : string) : node :=
  Element "a" [("href", href)] [Text label].

Definition document (body : list node) : list node :=
  [Element "html" [] [Element "head" [] []; Element "body" [] body]].

(** A home page whose only link to [/about] sits in its [<nav>] bar. *)
Definition nav_site : site :=
  mkSite
    [ ("https://a.com/", ok200 "<nav><a href=/about>About</a></nav><p>Home</p>");
      ("https://a.com/about", ok200 "<p>About us</p>") ]
    [ ("<nav><a href=/about>About</a></nav><p>Home</p>",
       document [Element "nav" [] [anchor "/about" "About"]; Element "p" [] [Text "Home"]]);
      ("<p>About us</p>", document [Element "p" [] [Text "About us"]]) ].

(** The same page linked several times and under several fragments. *)
Definition dup_site : site :=
  mkSite
    [ ("https://a.com/",
       ok200 "<a href=/x#sec1>1</a><a href=/x#sec2>2</a><a href=/x>3</a><a href=https://a.com/x#sec1>4</a>");
      ("https://a.com/x",
       ok200 "<a href=/>home</a><a href=/#top>top</a><a href=/x#again>self</a>") ]
    [ ("<a href=/x#sec1>1</a><a href=/x#sec2>2</a><a href=/x>3</a><a href=https://a.com/x#sec1>4</a>",
       document [anchor "/x#sec1" "1"; anchor "/x#sec2" "2"; anchor "/x" "3";
                 anchor "https://a.com/x#sec1" "4"]);
      ("<a href=/>home</a><a href=/#top>top</a><a href=/x#again>self</a>",
       document [anchor "/" "home"; anchor "/#top" "top"; anchor "/x#again" "self"]) ].

(** A home page linking to an image under a versioned URL and to a script. *)
Definition asset_site : site :=
  mkSite
    [ ("https://a.com/", ok200 "<a href=/logo.png?v=2>logo</a><a href=/app.js>js</a>");
      ("https://a.com/logo.png?v=2", ok200 "PNG");
      ("https://a.com/app.js", ok200 "JS") ]
    [ ("<a href=/logo.png?v=2>logo</a><a href=/app.js>js</a>",
       document [anchor "/logo.png?v=2" "logo"; anchor "/app.js" "js"]) ].

(** A home page linking to its [www.] twin and to another host. *)
Definition www_site : site :=
  mkSite
    [ ("https://a.com/",
       ok200 "<a href=https://www.a.com/page>w</a><a href=https://other.com/page>o</a>");
      ("https://www.a.com/page", ok200 "<p>twin</p>");
      ("https://other.com/page", ok200 "<p>other</p>") ]
    [ ("<a href=https://www.a.com/page>w</a><a href=https://other.com/page>o</a>",
       document [anchor "https://www.a.com/page" "w"; anchor "https://other.com/page" "o"]);
      ("<p>twin</p>", document [Element "p" [] [Text "twin"]]);
      ("<p>other</p>", document [Element "p" [] [Text "other"]]) ].

(** A documentation tree linking to a page outside its path and to another
    host. *)
Definition docs_site : site :=
  mkSite
    [ ("https://a.com/docs/",
       ok200 "<a href=/docs/intro>in</a><a href=/blog/post>out</a><a href=https://other.com/page>o</a>");
      ("https://a.com/docs/intro", ok200 "<p>intro</p>");
      ("https://a.com/blog/post", ok200 "<p>post</p>");
      ("https://other.com/page", ok200 "<p>other</p>") ]
    [ ("<a href=/docs/intro>in</a><a href=/blog/post>out</a><a href=https://other.com/page>o</a>",
       document [anchor "/docs/intro" "in"; anchor "/blog/post" "out";
                 anchor "https://other.com/page" "o"]);
      ("<p>intro</p>", document [Element "p" [] [Text "intro"]]);
      ("<p>post</p>", document [Element "p" [] [Text "post"]]);
      ("<p>other</p>", document [Element "p" [] [Text "other"]]) ].

(** [example.com] linking to the unrelated host [exawww.mple.com]. *)
Definition lookalike_site : site :=
  mkSite
    [ ("https://example.com/", ok200 "<a href=https://exawww.mple.com/>x</a>");
      ("https://exawww.mple.com/", ok200 "<p>elsewhere</p>") ]
    [ ("<a href=https://exawww.mple.com/>x</a>",
       document [anchor "https://exawww.mple.com/" "x"]);
      ("<p>elsewhere</p>", document [Element "p" [] [Text "elsewhere"]]) ].

(** A home page with four links: [/a] answers 404, [/b] answers 200 with
    an empty body, [/c] is a page, and [/d] does not answer at all. *)
Definition flaky_site : site :=
  mkSite
    [ ("https://a.com/",
       ok200 "<a href=/a>a</a><a href=/b>b</a><a href=/c>c</a><a href=/d>d</a>");
      ("https://a.com/a", notFound);
      ("https://a.com/b", ok200 "");
      ("https://a.com/c", ok200 "<p>C</p>") ]
    [ ("<a href=/a>a</a><a href=/b>b</a><a href=/c>c</a><a href=/d>d</a>",
       document [anchor "/a" "a"; anchor "/b" "b"; anchor "/c" "c"; anchor "/d" "d"]);
      ("<p>C</p>", document [Element "p" [] [Text "C"]]) ].

(** A seed that is an image: once with a body, once answering 200 with an
    empty body. *)
Definition logo_site : site :=
  mkSite [ ("https://a.com/logo.png", ok200 "PNG") ] [].

Definition empty_logo_site : site :=
  mkSite [ ("https://a.com/logo.png", ok200 "") ] [].

(** The state [dup_site] is left in when its crawl ends. *)
Definition dup_final : state :=
  mkState []
    {[ "https://a.com/"; "https://a.com/x" ]}
    [ mkPage "https://a.com/" "1234"; mkPage "https://a.com/x" "hometopself" ]
    [ "https://a.com/"; "https://a.com/x" ].

(** The URLs of [flaky_site]. *)
Definition flaky_urls : gset string :=
  {[ "https://a.com/"; "https://a.com/a"; "https://a.com/b";
     "https://a.com/c"; "https://a.com/d" ]}.

Definition flaky_home : string :=
  "<a href=/a>a</a><a href=/b>b</a><a href=/c>c</a><a href=/d>d</a>".

End Sample.

(** ** The program entry point and the notions of the further properties *)

(** How a run of the program ends: [process.exit(code)] after a message on
    the error stream, the output file written, or the promise of [main()]
    rejected because [crawlWebsite] threw. *)
Inductive run_end :=
| Exited (code : nat) (stderr : string)
| Wrote (outputFile : string) (outputMarkdown : string)
| Rejected (e : exn).

Section Program.

Variable URL_parse : string → option string → option URL.
Variable fetch : string → option response.
Variable load : string → list node.
Variable html_xml : list node → string.
Variable turndown : string → string.

(** [fs.writeFileSync(file, data, { encoding: 'utf-8' })]: it returns, or
    throws a system error. *)
Variable writeFileSync : string → string → result unit.

(** [crawlWebsite(startUrl, outputFile)] whole: the crawl, then the write
    of [outputMarkdown] to [outputFile], outside any [try]. *)
Definition crawlWebsite_writing (v : source_file) (fuel : nat)
    (startUrl outputFile : string) : option (result (list Page * string)) :=
  match crawlWebsite URL_parse fetch load html_xml turndown v fuel startUrl with
  | None => None
  | Some (Threw e) => Some (Threw e)
  | Some (Returned (pages, outputMarkdown)) =>
      Some (_ ← writeFileSync outputFile outputMarkdown;
            mret (pages, outputMarkdown))
  end.

(** [main], on [process.argv]; [None] when the crawl runs out of fuel. *)
Definition main (v : source_file) (fuel : nat) (argv : list string)
    : option run_end :=
  if bool_decide (length argv < 3)
  then Some (Exited 1 "Usage: ts-node crawler.ts <URL> [output-file]")
  else
    let startUrl := default "" (argv !! 2) in
    let outputFile :=
      match argv !! 3 with
      | Some f => if bool_decide (f = "") then "output.md" else f
      | None => "output.md"
      end in
    match URL_new URL_parse startUrl None with
    | Threw _ => Some (Exited 1 "Please provide a valid URL.")
    | Returned _ =>
        match crawlWebsite_writing v fuel startUrl outputFile with
        | None => None
        | Some (Returned (_, outputMarkdown)) => Some (Wrote outputFile outputMarkdown)
        | Some (Threw e) => Some (Rejected e)
        end
    end.

End Program.

(** A tree in which no node matches any selector of [cleanHtmlContent]. *)
Definition noise_free (v : source_file) (doc : list node) : Prop :=
  ∀ group, group ∈ cleaning_steps v →
    Dom.select (Dom.matches_group group) doc = [].

(** A function of nodes that looks at the tag and the attributes of an
    element only, not below it. *)
Definition shallow {B} (f : node → B) : Prop :=
  ∀ tag attrs children children',
    f (Element tag attrs children) = f (Element tag attrs children').

(** The [href] read off an anchor, as [Dom.anchor_hrefs] does. *)
Definition href_of (n : node) : option string :=
  match n with
  | Text _ => None
  | Element _ attrs _ => Dom.attr "href" attrs
  end.

(** The state of the crawl of [Sample.dup_site] after its first pass. *)
Definition dup_first : state :=
  mkState
    [ "https://a.com/x"; "https://a.com/x"; "https://a.com/x"; "https://a.com/x" ]
    {[ "https://a.com/" ]}
    [ mkPage "https://a.com/" "1234" ]
    [ "https://a.com/" ].

(** * Properties *)

(** ** String primitives *)

Lemma endsWith_spec (s suf : string) :
  JsString.endsWith s suf = true ↔ ∃ pre, s = pre +:+ suf.
Proof.
  induction s as [|c s IH]; simpl.
  - rewrite orb_false_r, bool_decide_eq_true. split.
    + intros <-. by exists "".
    + intros [[|c pre] Hpre]; simpl in Hpre; [done | discriminate].
  - rewrite orb_true_iff, bool_decide_eq_true, IH. split.
    + intros [<- | [pre ->]]; [by exists "" | by exists (String c pre)].
    + intros [[|c' pre] Hpre]; simpl in Hpre; [by left | right].
      injection Hpre as -> ->. by exists pre.
Qed.

Lemma startsWith_spec (s p : string) :
  JsString.startsWith s p = true ↔ ∃ rest, s = p +:+ rest.
Proof.
  revert s. induction p as [|a p IH]; intros s; simpl.
  - split; [intros _; by exists s | done].
  - destruct s as [|b s].
    + split; [done | intros [rest Hrest]; discriminate].
    + rewrite andb_true_iff, bool_decide_eq_true, IH. split.
      * intros [-> [rest ->]]. by exists rest.
      * intros [rest Hrest]. injection Hrest as -> ->. eauto.
Qed.

Lemma startsWith_refl (s : string) : JsString.startsWith s s = true.
Proof.
  induction s as [|c s IH]; simpl; [done|].
  by rewrite bool_decide_eq_true_2.
Qed.

(** The trailing-slash replacement appends a slash exactly when the text
    does not already end in one. *)
Lemma ensureTrailingSlash_spec (s : string) :
  JsString.ensureTrailingSlash s
  = if JsString.endsWith s "/" then s else s +:+ "/".
Proof.
  induction s as [|c s IH]; [done|].
  cbn [JsString.ensureTrailingSlash JsString.endsWith].
  destruct (bool_decide (String c s = "/")) eqn:E; simpl.
  - by apply bool_decide_eq_true in E as ->.
  - rewrite IH. by destruct (JsString.endsWith s "/").
Qed.

Lemma string_app_assoc (s1 s2 s3 : string) :
  (s1 +:+ s2) +:+ s3 = s1 +:+ (s2 +:+ s3).
Proof.
  induction s1 as [|c s1 IH]; [done|].
  change (String c ((s1 +:+ s2) +:+ s3) = String c (s1 +:+ (s2 +:+ s3))).
  by rewrite IH.
Qed.

Lemma string_app_nil_r (s : string) : s +:+ "" = s.
Proof.
  induction s as [|c s IH]; [done|].
  change (String c (s +:+ "") = String c s). by rewrite IH.
Qed.

(** ** The URL class and [normalizeUrl] *)

Lemma same_up_to_fragment_clear_hash (u1 u2 : URL) :
  Url.same_up_to_fragment u1 u2 → Url.clear_hash u1 = Url.clear_hash u2.
Proof.
  destruct u1, u2. unfold Url.same_up_to_fragment, Url.clear_hash. simpl.
  by intros (-> & -> & -> & -> & -> & -> & ->).
Qed.

(** Clearing the hash forgets the fragment and keeps the other components. *)
(** Clearing the hash forgets the fragment and keeps every component but
    the path, which it keeps too unless it is opaque and the query null. *)
Lemma clear_hash_fields (u : URL) :
  scheme (Url.clear_hash u) = scheme u
  ∧ username (Url.clear_hash u) = username u
  ∧ password (Url.clear_hash u) = password u
  ∧ host (Url.clear_hash u) = host u
  ∧ port (Url.clear_hash u) = port u
  ∧ query (Url.clear_hash u) = query u
  ∧ fragment (Url.clear_hash u) = None.
Proof. by destruct u. Qed.

Lemma clear_hash_list_path (u : URL) :
  JsString.startsWith (path u) "/" = true ∨ query u ≠ None →
  path (Url.clear_hash u) = path u.
Proof.
  unfold Url.clear_hash, Url.has_opaque_path. simpl.
  intros [-> | Hq]; [done|].
  rewrite (bool_decide_eq_false_2 (query u = None)) by done.
  by rewrite andb_false_r.
Qed.

Lemma stripTrailingSpaces_spec (s : string) :
  ∃ n, s = JsString.stripTrailingSpaces s +:+ JsString.spaces n
       ∧ JsString.endsWith (JsString.stripTrailingSpaces s) " " = false.
Proof.
  induction s as [|c s (n & Hs & Hends)]; [by exists 0|].
  cbn [JsString.stripTrailingSpaces].
  destruct (bool_decide (c = " "%char)) eqn:Hc; simpl.
  - apply bool_decide_eq_true in Hc as ->.
    destruct (bool_decide (JsString.stripTrailingSpaces s = "")) eqn:Hkept.
    + apply bool_decide_eq_true in Hkept. rewrite Hkept in Hs.
      exists (S n). split; [|done]. simpl. by rewrite Hs at 1.
    + exists n. split; [by rewrite Hs at 1|].
      apply bool_decide_eq_false in Hkept.
      cbn [JsString.endsWith]. rewrite Hends, orb_false_r.
      apply bool_decide_eq_false. intros [= Heq]. done.
  - exists n. split; [by rewrite Hs at 1|].
    cbn [JsString.endsWith]. rewrite Hends, orb_false_r.
    apply bool_decide_eq_false. intros [= -> _].
    by apply bool_decide_eq_false in Hc.
Qed.

Lemma stripTrailingSpaces_fixed (s : string) :
  JsString.endsWith s " " = false → JsString.stripTrailingSpaces s = s.
Proof.
  induction s as [|c s IH]; [done|].
  cbn [JsString.endsWith JsString.stripTrailingSpaces].
  intros [Hc Hs]%orb_false_elim. rewrite (IH Hs).
  destruct (bool_decide (c = " "%char)) eqn:Hsp; [|done].
  apply bool_decide_eq_true in Hsp as ->.
  destruct s; [by apply bool_decide_eq_false in Hc|].
  by rewrite bool_decide_eq_false_2.
Qed.

Lemma stripTrailingSpaces_idempotent (s : string) :
  JsString.stripTrailingSpaces (JsString.stripTrailingSpaces s)
  = JsString.stripTrailingSpaces s.
Proof.
  destruct (stripTrailingSpaces_spec s) as (n & _ & Hends).
  by apply stripTrailingSpaces_fixed.
Qed.

Lemma stripTrailingSpaces_first (s : string) :
  JsString.startsWith (JsString.stripTrailingSpaces s) "/"
  = JsString.startsWith s "/".
Proof.
  destruct s as [|c s]; [done|]. cbn [JsString.stripTrailingSpaces].
  destruct (bool_decide (c = " "%char)) eqn:Hc; simpl; [|done].
  apply bool_decide_eq_true in Hc as ->.
  by destruct (bool_decide (JsString.stripTrailingSpaces s = "")).
Qed.

Section Properties.

Variable URL_parse : string → option string → option URL.
Variable fetch : string → option response.
Variable load : string → list node.
Variable html_xml : list node → string.
Variable turndown : string → string.

Local Abbreviation normalizeUrl := (normalizeUrl URL_parse).
Local Abbreviation fetchPage := (fetchPage fetch).
Local Abbreviation handleLink := (handleLink URL_parse).
Local Abbreviation each_anchor := (each_anchor URL_parse).
Local Abbreviation process_page := (process_page URL_parse load html_xml turndown).
Local Abbreviation loop_body := (loop_body URL_parse fetch load html_xml turndown).
Local Abbreviation crawl_loop := (crawl_loop URL_parse fetch load html_xml turndown).
Local Abbreviation crawl_init := (crawl_init URL_parse).
Local Abbreviation crawlWebsite := (crawlWebsite URL_parse fetch load html_xml turndown).
Local Abbreviation step := (step URL_parse fetch load html_xml turndown).
Local Abbreviation link_target := (link_target URL_parse).
Local Abbreviation page_links := (page_links URL_parse load).
Local Abbreviation edge := (edge URL_parse fetch load).
Local Abbreviation reachable := (reachable URL_parse fetch load).
Local Abbreviation page_content := (page_content load html_xml turndown).
Local Abbreviation crawl_invariant :=
  (crawl_invariant URL_parse fetch load html_xml turndown).

(** [normalizeUrl] never throws: it serializes the parsed URL without its
    fragment, and hands back its argument when the parser refuses it. *)
Lemma normalizeUrl_eq (s : string) :
  normalizeUrl s
  = Returned match URL_parse s None with
             | Some u => Url.toString (Url.clear_hash u)
             | None => s
             end.
Proof.
  unfold normalizeUrl, URL_new.
  by destruct (URL_parse s None).
Qed.

(** ** Link handling *)

Lemma handleLink_eq v sc currentUrl href st :
  handleLink v sc currentUrl href st
  = Returned (offer (link_target v sc currentUrl href) st).
Proof.
  unfold handleLink, link_target, URL_new.
  destruct href as [href|]; [|done].
  destruct (bool_decide (href = "")); [done|].
  destruct (isAssetHref href); [done|].
  destruct (URL_parse href (Some currentUrl)) as [u|]; [|done]; simpl.
  destruct (inScope v sc (Url.clear_hash u)); [|done]; simpl.
  by destruct (bool_decide _).
Qed.

Lemma each_anchor_eq v sc currentUrl hrefs st :
  each_anchor v sc currentUrl hrefs st
  = Returned (mkState
                (queue st ++ unvisited st (omap (link_target v sc currentUrl) hrefs))
                (visited st) (pages st) (requests st)).
Proof.
  revert st. induction hrefs as [|href hrefs IH]; intros st; simpl.
  - unfold unvisited. rewrite filter_nil, app_nil_r. by destruct st.
  - rewrite handleLink_eq. cbn [mbind result_bind]. rewrite IH. f_equal.
    unfold offer, unvisited.
    destruct (link_target v sc currentUrl href) as [w|]; [|done].
    rewrite filter_cons.
    destruct (decide (w ∉ visited st)) as [Hw|Hw].
    + rewrite bool_decide_eq_true_2 by done. simpl. by rewrite <- app_assoc.
    + by rewrite bool_decide_eq_false_2 by done.
Qed.

(** A page that was fetched and parsed: its new links join the queue and
    one page is recorded, in either source file. *)
Lemma process_page_eq v sc currentUrl html st :
  process_page v sc currentUrl html st
  = Returned (mkState
                (queue st ++ unvisited st (page_links v sc currentUrl html))
                (visited st)
                (pages st ++ [mkPage currentUrl (page_content v html)])
                (requests st)).
Proof.
  unfold process_page, page_links, link_source, page_content.
  destruct v.
  - rewrite each_anchor_eq. done.
  - rewrite each_anchor_eq. done.
Qed.

(** The three ways through the loop body. *)
Lemma loop_body_visited v sc currentUrl st :
  currentUrl ∈ visited st →
  loop_body v sc currentUrl st = Returned st.
Proof.
  intros Hin. unfold loop_body. by rewrite bool_decide_eq_true_2.
Qed.

Lemma loop_body_dropped v sc currentUrl st :
  currentUrl ∉ visited st →
  falsy (fetchPage currentUrl) = true →
  loop_body v sc currentUrl st
  = Returned (log_request currentUrl (visited_add currentUrl st)).
Proof.
  intros Hin Hf. unfold loop_body.
  rewrite bool_decide_eq_false_2 by done. by rewrite Hf.
Qed.

Lemma loop_body_page v sc currentUrl html st :
  currentUrl ∉ visited st →
  fetchPage currentUrl = Some html → html ≠ "" →
  loop_body v sc currentUrl st
  = Returned (mkState
                (queue st
                 ++ filter (λ w, w ∉ {[currentUrl]} ∪ visited st)
                      (page_links v sc currentUrl html))
                ({[currentUrl]} ∪ visited st)
                (pages st ++ [mkPage currentUrl (page_content v html)])
                (requests st ++ [currentUrl])).
Proof.
  intros Hin Hf Hne. unfold loop_body.
  rewrite bool_decide_eq_false_2 by done. rewrite Hf. simpl.
  rewrite bool_decide_eq_false_2 by done.
  by rewrite process_page_eq.
Qed.

Lemma falsy_false (html : option string) :
  falsy html = false ↔ ∃ h, html = Some h ∧ h ≠ "".
Proof.
  destruct html as [h|]; simpl.
  - rewrite bool_decide_eq_false. split.
    + intros Hne. by exists h.
    + by intros (h' & [= <-] & Hne).
  - split; [done | by intros (h & ? & _)].
Qed.

Lemma falsy_true (html : option string) :
  falsy html = true ↔ ¬ ∃ h, html = Some h ∧ h ≠ "".
Proof.
  rewrite <- falsy_false. by destruct (falsy html).
Qed.

(** ** The loop invariant *)

Lemma crawl_init_inv v startUrl sc st0 :
  crawl_init v startUrl = Returned (sc, st0) →
  ∃ seed u,
    normalizeUrl startUrl = Returned seed
    ∧ URL_parse seed None = Some u
    ∧ baseDomain sc = Url.hostname u
    ∧ (v = IndexTs → basePath sc = JsString.ensureTrailingSlash (Url.pathname u))
    ∧ st0 = mkState [seed] ∅ [] [].
Proof.
  unfold crawl_init. rewrite normalizeUrl_eq.
  cbn [mbind result_bind]. unfold URL_new.
  set (seed := match URL_parse startUrl None with
               | Some u => Url.toString (Url.clear_hash u)
               | None => startUrl
               end).
  destruct (URL_parse seed None) as [u|] eqn:Hu; [|done].
  cbn [mbind result_bind mret result_ret]. intros [= <- <-].
  exists seed, u. by destruct v.
Qed.

Lemma invariant_initial v sc seed :
  crawl_invariant v sc seed (mkState [seed] ∅ [] []).
Proof.
  split; simpl.
  - intros u ->%list_elem_of_singleton. apply rtc_refl.
  - set_solver.
  - right. by apply list_elem_of_singleton.
  - set_solver.
  - constructor.
  - set_solver.
  - constructor.
  - intros p. split; [by intros ?%elem_of_nil | set_solver].
Qed.

Lemma invariant_step v sc seed st st' :
  crawl_invariant v sc seed st → step v sc st st' →
  crawl_invariant v sc seed st'.
Proof.
  intros [Hq Hv Hseed Hclosed Hrn Hr Hpn Hp] (u & rest & Hqueue & Hbody).
  rewrite Hqueue in *.
  assert (Hu : reachable v sc seed u) by (apply Hq; left).
  destruct (decide (u ∈ visited st)) as [Hin|Hin].
  { rewrite loop_body_visited in Hbody by done. injection Hbody as <-.
    split; simpl; try done.
    - intros w Hw. apply Hq. by right.
    - destruct Hseed as [?|[->|?]%elem_of_cons]; auto.
    - intros u' w Hu' He.
      destruct (Hclosed u' w Hu' He) as [?|[->|?]%elem_of_cons]; auto. }
  destruct (falsy (fetchPage u)) eqn:Hf.
  { rewrite loop_body_dropped in Hbody by done. injection Hbody as <-.
    apply falsy_true in Hf.
    split; simpl.
    - intros w Hw. apply Hq. by right.
    - intros w [->%elem_of_singleton|Hw]%elem_of_union; auto.
    - destruct Hseed as [?|[->|?]%elem_of_cons]; set_solver.
    - intros u' w [->%elem_of_singleton|Hu']%elem_of_union He.
      + destruct He as (html & Hhtml & Hne & _). destruct Hf. eauto.
      + destruct (Hclosed u' w Hu' He) as [?|[->|?]%elem_of_cons]; set_solver.
    - apply NoDup_app. split_and!; [done| |apply NoDup_singleton].
      intros w Hw ->%list_elem_of_singleton. by apply Hin, Hr.
    - intros w. rewrite elem_of_app, list_elem_of_singleton, Hr. set_solver.
    - done.
    - intros p. rewrite Hp. split.
      + intros [Hvis Hrest]. split; [set_solver | done].
      + intros [[Hpu%elem_of_singleton|Hvis]%elem_of_union Hrest]; [|done].
        destruct Hrest as (html & Hhtml & Hne & _). destruct Hf.
        rewrite <- Hpu. eauto. }
  apply falsy_false in Hf as (html & Hhtml & Hne).
  rewrite (loop_body_page _ _ _ html) in Hbody by done. injection Hbody as <-.
  assert (Hlinks : ∀ w, w ∈ page_links v sc u html → edge v sc u w).
  { intros w Hw. by exists html. }
  split; simpl.
  - intros w [Hw|[_ Hw]%list_elem_of_filter]%elem_of_app.
    + apply Hq. by right.
    + eapply rtc_r; [exact Hu | auto].
  - intros w [->%elem_of_singleton|Hw]%elem_of_union; auto.
  - destruct Hseed as [?|[->|?]%elem_of_cons]; [set_solver..|].
    right. apply elem_of_app. by left.
  - intros u' w [->%elem_of_singleton|Hu']%elem_of_union He.
    + destruct He as (html' & Hhtml' & _ & Hw).
      assert (html' = html) as -> by congruence.
      destruct (decide (w ∈ ({[u]} ∪ visited st : gset string))); [by left|].
      right. apply elem_of_app. right. by apply list_elem_of_filter.
    + destruct (Hclosed u' w Hu' He) as [?|[->|?]%elem_of_cons]; [set_solver..|].
      right. apply elem_of_app. by left.
  - apply NoDup_app. split_and!; [done| |apply NoDup_singleton].
    intros w Hw ->%list_elem_of_singleton. by apply Hin, Hr.
  - intros w. rewrite elem_of_app, list_elem_of_singleton, Hr. set_solver.
  - rewrite fmap_app. apply NoDup_app. split_and!; [done| |apply NoDup_singleton].
    intros w (p & -> & Hpin)%list_elem_of_fmap Heq%list_elem_of_singleton.
    apply Hp in Hpin as [Hvis _]. by rewrite Heq in Hvis.
  - intros p. rewrite elem_of_app, list_elem_of_singleton, Hp. split.
    + intros [[Hvis Hrest]| ->]; simpl.
      * split; [set_solver | done].
      * split; [set_solver | by exists html].
    + intros [[Hpu%elem_of_singleton|Hvis]%elem_of_union Hrest]; [|by left].
      right. destruct Hrest as (html' & Hhtml' & _ & ->). simpl.
      rewrite Hpu in Hhtml'. simpl in Hpu. congruence.
Qed.

Lemma invariant_steps v sc seed st st' :
  crawl_invariant v sc seed st → rtc (step v sc) st st' →
  crawl_invariant v sc seed st'.
Proof.
  intros Hinv Hsteps. induction Hsteps as [|st1 st2 st3 H12 _ IH]; [done|].
  eauto using invariant_step.
Qed.

Lemma invariant_reached v startUrl sc st0 st :
  crawl_init v startUrl = Returned (sc, st0) →
  rtc (step v sc) st0 st →
  ∃ seed, crawl_invariant v sc seed st.
Proof.
  intros (seed & u0 & _ & _ & _ & _ & ->)%crawl_init_inv Hsteps.
  exists seed. eauto using invariant_steps, invariant_initial.
Qed.

(** A run of the loop is a sequence of passes that ends on an empty queue. *)
Lemma crawl_loop_steps v sc fuel st st' :
  crawl_loop v sc fuel st = Some (Returned st') →
  rtc (step v sc) st st' ∧ queue st' = [].
Proof.
  revert st. induction fuel as [|fuel IH]; intros st; simpl.
  - destruct (queue st) eqn:Hq; [|done]. by intros [= <-].
  - destruct (queue st) as [|u rest] eqn:Hq; [by intros [= <-]|].
    destruct (loop_body v sc u (set_queue rest st)) as [st1|e] eqn:Hbody; [|done].
    intros [Hsteps Hempty]%IH. split; [|done].
    eapply rtc_l; [|exact Hsteps]. by exists u, rest.
Qed.

(** No pass of the loop throws. *)
Lemma loop_body_returns v sc currentUrl st :
  ∃ st', loop_body v sc currentUrl st = Returned st'.
Proof.
  destruct (decide (currentUrl ∈ visited st)) as [Hin|Hin].
  { rewrite loop_body_visited by done. eauto. }
  destruct (falsy (fetchPage currentUrl)) eqn:Hf.
  { rewrite loop_body_dropped by done. eauto. }
  apply falsy_false in Hf as (html & Hhtml & Hne).
  rewrite (loop_body_page _ _ _ html) by done. eauto.
Qed.

Lemma crawl_loop_returns v sc fuel st r :
  crawl_loop v sc fuel st = Some r → ∃ st', r = Returned st'.
Proof.
  revert st. induction fuel as [|fuel IH]; intros st; simpl.
  - destruct (queue st); [|done]. intros [= <-]. eauto.
  - destruct (queue st) as [|u rest]; [intros [= <-]; eauto|].
    destruct (loop_body_returns v sc u (set_queue rest st)) as [st1 ->].
    apply IH.
Qed.

(** ** Termination and completeness of the traversal *)

Lemma loop_body_fresh v sc currentUrl st st' :
  currentUrl ∉ visited st →
  loop_body v sc currentUrl st = Returned st' →
  visited st' = {[currentUrl]} ∪ visited st.
Proof.
  intros Hin. destruct (falsy (fetchPage currentUrl)) eqn:Hf.
  - rewrite loop_body_dropped by done. by intros [= <-].
  - apply falsy_false in Hf as (html & Hhtml & Hne).
    rewrite (loop_body_page _ _ _ html) by done. by intros [= <-].
Qed.

(** When the URLs the crawler can reach all lie in a finite set [U], the
    loop empties its queue: every pass either shortens the queue or marks
    one more URL of [U] as visited. *)
Lemma crawl_loop_terminates v sc seed (U : gset string) :
  (∀ w, reachable v sc seed w → w ∈ U) →
  ∀ n st,
    crawl_invariant v sc seed st → size (U ∖ visited st) ≤ n →
    ∃ fuel st', crawl_loop v sc fuel st = Some (Returned st').
Proof.
  intros HU n. induction n as [|n IHn]; intros st Hinv Hsize.
  all: remember (queue st) as q eqn:Hq; revert st Hinv Hsize Hq.
  all: induction q as [|u rest IHq]; intros st Hinv Hsize Hq.
  all: try (exists 0, st; simpl; by rewrite <- Hq).
  all: destruct (loop_body_returns v sc u (set_queue rest st)) as [st1 Hst1].
  all: assert (Hstep : step v sc st st1) by (by exists u, rest).
  all: pose proof (invariant_step _ _ _ _ _ Hinv Hstep) as Hinv1.
  all: destruct (decide (u ∈ visited st)) as [Hin|Hin].
  all: try (rewrite loop_body_visited in Hst1 by done; injection Hst1 as <-;
            destruct (IHq (set_queue rest st) Hinv1 Hsize eq_refl) as (fuel & st' & Hrun);
            exists (S fuel), st'; simpl; rewrite <- Hq;
            by rewrite loop_body_visited).
  all: assert (HuU : u ∈ U)
         by (apply HU, (inv_queue_reachable _ _ _ _ _ _ _ _ _ Hinv);
             rewrite <- Hq; left).
  all: assert (Hless : size (U ∖ visited st1) < size (U ∖ visited st))
         by (apply subset_size;
             rewrite (loop_body_fresh v sc u (set_queue rest st) st1 Hin Hst1);
             simpl; set_solver).
  - lia.
  - destruct (IHn st1 Hinv1) as (fuel & st' & Hrun); [lia|].
    exists (S fuel), st'. simpl. by rewrite <- Hq, Hst1.
Qed.

(** On an empty queue the visited set holds everything reachable. *)
Lemma invariant_final_visited v sc seed st :
  crawl_invariant v sc seed st → queue st = [] →
  ∀ w, reachable v sc seed w → w ∈ visited st.
Proof.
  intros Hinv Hempty w Hw. unfold reachable in Hw.
  revert w Hw. apply rtc_ind_r.
  2: intros y z _ Hyz IH.
  - destruct (inv_seed _ _ _ _ _ _ _ _ _ Hinv) as [?|Hq]; [done|].
    rewrite Hempty in Hq. by apply elem_of_nil in Hq.
  - destruct (inv_closed _ _ _ _ _ _ _ _ _ Hinv y z IH Hyz) as [?|Hq]; [done|].
    rewrite Hempty in Hq. by apply elem_of_nil in Hq.
Qed.

(** [fetchPage] gives [null] for a network error, a response that is not
    [ok], and a body that cannot be read. *)
Lemma fetchPage_None (u : string) :
  fetchPage u = None
  ↔ fetch u = None
    ∨ (∃ statusText text, fetch u = Some (Response false statusText text))
    ∨ (∃ statusText, fetch u = Some (Response true statusText None)).
Proof.
  unfold fetchPage.
  destruct (fetch u) as [[[] statusText [body|]]|]; simpl; naive_solver.
Qed.

(** ** Monotonicity of the log and of the page list *)

Lemma step_prefix v sc st st' :
  step v sc st st' →
  requests st `prefix_of` requests st' ∧ pages st `prefix_of` pages st'.
Proof.
  intros (u & rest & Hq & Hbody).
  destruct (decide (u ∈ visited st)) as [Hin|Hin].
  { rewrite loop_body_visited in Hbody by done. by injection Hbody as <-. }
  destruct (falsy (fetchPage u)) eqn:Hf.
  { rewrite loop_body_dropped in Hbody by done. injection Hbody as <-.
    split; simpl; [by apply prefix_app_r | done]. }
  apply falsy_false in Hf as (html & Hhtml & Hne).
  rewrite (loop_body_page _ _ _ html) in Hbody by done. injection Hbody as <-.
  split; simpl; by apply prefix_app_r.
Qed.

Lemma steps_prefix v sc st st' :
  rtc (step v sc) st st' →
  requests st `prefix_of` requests st' ∧ pages st `prefix_of` pages st'.
Proof.
  induction 1 as [|st1 st2 st3 H12 _ [IHr IHp]]; [done|].
  apply step_prefix in H12 as [Hr Hp]. split; by etrans.
Qed.

Lemma prefix_head {A} (l1 l2 : list A) (x : A) :
  l1 `prefix_of` l2 → head l1 = Some x → head l2 = Some x.
Proof. intros [k ->]. by destruct l1. Qed.

(** ** The claims about the crawl engine *)

(** C1 (dedup).  In either source file and at every point of every crawl,
    no URL was handed to [fetchPage] twice and no URL heads two recorded
    pages, however many links and fragment variants lead to it: the URLs
    requested are exactly the visited ones, a URL is marked visited before
    it is requested, and every recorded page belongs to a requested URL. *)
Theorem each_url_fetched_once v startUrl sc st0 st :
  crawl_init v startUrl = Returned (sc, st0) →
  rtc (step v sc) st0 st →
  NoDup (requests st)
  ∧ NoDup (url <$> pages st)
  ∧ (∀ u, u ∈ requests st ↔ u ∈ visited st)
  ∧ (∀ p, p ∈ pages st → url p ∈ requests st).
Proof.
  intros Hinit Hsteps.
  destruct (invariant_reached v startUrl sc st0 st Hinit Hsteps)
    as (seed & [_ _ _ _ Hrn Hr Hpn Hp]).
  split_and!; [done..|].
  intros p [Hvis _]%Hp. by apply Hr.
Qed.

(** The pages a finished crawl hands to the aggregator carry pairwise
    different URLs. *)
Lemma crawlWebsite_pages_once v fuel startUrl ps out :
  crawlWebsite v fuel startUrl = Some (Returned (ps, out)) →
  NoDup (url <$> ps) ∧ out = render ps.
Proof.
  unfold crawlWebsite.
  destruct (crawl_init v startUrl) as [[sc st0]|e] eqn:Hinit; [|done].
  destruct (crawl_loop v sc fuel st0) as [[st|e]|] eqn:Hrun; [|done..].
  intros [= <- <-]. split; [|done].
  apply crawl_loop_steps in Hrun as [Hsteps _].
  destruct (invariant_reached v startUrl sc st0 st Hinit Hsteps) as (seed & Hinv).
  exact (inv_pages_nodup _ _ _ _ _ _ _ _ _ Hinv).
Qed.

(** C7 (fetch-failure tolerance), in the form the code satisfies.  Let the URLs the crawler can
    reach from the seed, through the links of pages fetched with a
    non-empty body, lie in a finite set.  Then the crawl runs to the end
    without throwing; no URL is requested twice; the URLs requested are
    exactly the reachable ones; a URL whose fetch failed, or gave an empty
    body, heads no page; and every reachable URL fetched with a non-empty
    body has its page in the result. *)
Theorem crawl_survives_fetch_failures v startUrl sc st0 seed (U : gset string) :
  crawl_init v startUrl = Returned (sc, st0) →
  normalizeUrl startUrl = Returned seed →
  (∀ w, reachable v sc seed w → w ∈ U) →
  ∃ fuel st,
    crawl_loop v sc fuel st0 = Some (Returned st)
    ∧ NoDup (requests st)
    ∧ (∀ w, w ∈ requests st ↔ reachable v sc seed w)
    ∧ (∀ u, falsy (fetchPage u) = true → u ∉ url <$> pages st)
    ∧ (∀ w html,
         reachable v sc seed w → fetchPage w = Some html → html ≠ "" →
         mkPage w (page_content v html) ∈ pages st).
Proof.
  intros (seed' & u0 & Hseed & _ & _ & _ & ->)%crawl_init_inv Hnorm HU.
  assert (seed' = seed) as -> by congruence.
  pose proof (invariant_initial v sc seed) as Hinv0.
  destruct (crawl_loop_terminates v sc seed U HU _ _ Hinv0 (reflexivity _))
    as (fuel & st & Hrun).
  exists fuel, st. split; [done|].
  destruct (crawl_loop_steps _ _ _ _ _ Hrun) as [Hsteps Hempty].
  pose proof (invariant_steps v sc seed _ _ Hinv0 Hsteps) as Hinv.
  pose proof (invariant_final_visited v sc seed st Hinv Hempty) as Hall.
  destruct Hinv as [_ Hv _ _ Hrn Hr _ Hp].
  split_and!.
  - done.
  - intros w. rewrite Hr. split; auto.
  - intros u Hf (p & -> & [_ (html & Hhtml & Hne & _)]%Hp)%list_elem_of_fmap.
    apply falsy_true in Hf. destruct Hf. eauto.
  - intros w html Hw Hhtml Hne. apply Hp. simpl. split; [auto|].
    by exists html.
Qed.

(** C10 (the seed is not filtered), in the form the code satisfies.  Whatever the seed looks
    like, the first pass of the loop requests the normalized seed and
    nothing else; every run of the loop that comes to an end returns, has
    the seed as its first request, and, when the seed was fetched with a
    non-empty body, has the seed's page as its first page. *)
Theorem seed_is_always_fetched v startUrl sc st0 seed :
  crawl_init v startUrl = Returned (sc, st0) →
  normalizeUrl startUrl = Returned seed →
  (∃ st1, step v sc st0 st1 ∧ requests st1 = [seed])
  ∧ ∀ fuel r,
      crawl_loop v sc fuel st0 = Some r →
      ∃ st,
        r = Returned st
        ∧ head (requests st) = Some seed
        ∧ ∀ html,
            fetchPage seed = Some html → html ≠ "" →
            head (pages st) = Some (mkPage seed (page_content v html)).
Proof.
  intros (seed' & u0 & Hseed & _ & _ & _ & ->)%crawl_init_inv Hnorm.
  assert (seed' = seed) as -> by congruence.
  set (st0 := mkState [seed] ∅ [] []).
  destruct (loop_body_returns v sc seed (set_queue [] st0)) as [st1 Hst1].
  assert (Hfresh : seed ∉ visited (set_queue [] st0)) by set_solver.
  assert (Hreq : requests st1 = [seed]).
  { destruct (falsy (fetchPage seed)) eqn:Hf.
    - rewrite loop_body_dropped in Hst1 by done. by injection Hst1 as <-.
    - apply falsy_false in Hf as (html & Hhtml & Hne).
      rewrite (loop_body_page _ _ _ html) in Hst1 by done.
      by injection Hst1 as <-. }
  split.
  { exists st1. split; [|done]. by exists seed, []. }
  intros [|fuel] r; [done|]. simpl. rewrite Hst1. intros Hrun.
  destruct (crawl_loop_returns _ _ _ _ _ Hrun) as [st ->].
  apply crawl_loop_steps in Hrun as [[Hr Hp]%steps_prefix _].
  exists st. split_and!; [done| |].
  - apply (prefix_head _ _ _ Hr). by rewrite Hreq.
  - intros html Hhtml Hne. apply (prefix_head _ _ _ Hp).
    rewrite (loop_body_page _ _ _ html) in Hst1 by done.
    by injection Hst1 as <-.
Qed.

(** The seed passes its own scope check: the filters of link extraction
    could only ever hold it back through the asset test. *)
Lemma seed_in_own_scope v startUrl sc st0 seed u :
  crawl_init v startUrl = Returned (sc, st0) →
  normalizeUrl startUrl = Returned seed →
  URL_parse seed None = Some u →
  inScope v sc u = true.
Proof.
  intros (seed' & u' & Hseed & Hu' & Hdomain & Hpath & _)%crawl_init_inv Hnorm Hu.
  assert (seed' = seed) as -> by congruence.
  assert (u' = u) as -> by congruence.
  destruct v; simpl.
  - unfold isSameDomain, isUnderBasePath. rewrite Hdomain, Hpath by done.
    rewrite bool_decide_eq_true_2 by done. apply startsWith_refl.
  - rewrite Hdomain. by apply bool_decide_eq_true.
Qed.

(** ** The claims about link filtering *)

Lemma isAssetHref_spec (href : string) :
  isAssetHref href = true
  ↔ ∃ pre ext,
      ext ∈ asset_extensions
      ∧ JsString.toLowerCase href = pre +:+ "." +:+ ext.
Proof.
  unfold isAssetHref. rewrite existsb_exists. split.
  - intros (ext & Hin%list_elem_of_In & [pre Hpre]%endsWith_spec). eauto.
  - intros (pre & ext & Hin & Hpre). exists ext.
    split; [by apply list_elem_of_In|]. apply endsWith_spec. eauto.
Qed.

(** C4 (asset exclusion), in the form the code satisfies.  A link whose [href] text itself
    ends, up to ASCII case, in a dot and one of the asset extensions adds
    nothing to the queue, whatever the scope and whatever it resolves to. *)
Theorem asset_href_rejected v sc currentUrl href pre ext st :
  ext ∈ asset_extensions →
  JsString.toLowerCase href = pre +:+ "." +:+ ext →
  handleLink v sc currentUrl (Some href) st = Returned st
  ∧ link_target v sc currentUrl (Some href) = None.
Proof.
  intros Hext Hhref.
  assert (Hasset : isAssetHref href = true) by (apply isAssetHref_spec; eauto).
  assert (Htarget : link_target v sc currentUrl (Some href) = None).
  { unfold link_target. rewrite Hasset. by destruct (bool_decide _). }
  by rewrite handleLink_eq, Htarget.
Qed.

Lemma replace_not_included (pat rep s : string) :
  JsString.includes s pat = false → JsString.replace pat rep s = s.
Proof.
  induction s as [|c s IH]; simpl.
  - intros [-> _]%orb_false_elim. done.
  - intros [-> Hrest]%orb_false_elim. by rewrite IH.
Qed.

Lemma includes_false_startsWith (s pat : string) :
  JsString.includes s pat = false → JsString.startsWith s pat = false.
Proof. destruct s; simpl; by intros [? _]%orb_false_elim. Qed.

Lemma replace_leading (pat rep s : string) :
  JsString.startsWith s pat = true →
  JsString.replace pat rep s = rep +:+ JsString.drop (String.length pat) s.
Proof. intros Hs. destruct s; simpl; by rewrite Hs. Qed.

(** Where [www.] occurs only at the start of a host name, removing its
    first occurrence is stripping the leading label. *)
Lemma replace_www_leading (hostname : string) :
  www_leading_only hostname →
  JsString.replace "www." "" hostname = strip_leading_www hostname.
Proof.
  unfold strip_leading_www. intros [Hlead|Hnone].
  - by rewrite replace_leading, Hlead.
  - rewrite replace_not_included by done.
    by rewrite (includes_false_startsWith _ _ Hnone).
Qed.

Lemma isSameDomain_leading sc u :
  www_leading_only (Url.hostname u) → www_leading_only (baseDomain sc) →
  isSameDomain sc u = true ↔ spec_same_domain (Url.hostname u) (baseDomain sc).
Proof.
  intros Hu Hb. unfold isSameDomain, spec_same_domain.
  by rewrite bool_decide_eq_true, !replace_www_leading.
Qed.

(** C5 (scope exclusion), in the form the code satisfies.  A link that resolves to [u] adds
    nothing to the queue when, in part_000, the host name of [u] is not
    the seed's; and when, in index.ts, the host names still differ after a
    leading [www.] is stripped from both (for host names with no other
    [www.] in them) or the path of [u] once its hash is cleared, closed by
    a slash, does not start with the seed's base path. *)
Theorem out_of_scope_link_rejected v sc currentUrl href u st :
  URL_parse href (Some currentUrl) = Some u →
  match v with
  | Part000 => Url.hostname u ≠ baseDomain sc
  | IndexTs =>
      (www_leading_only (Url.hostname u) ∧ www_leading_only (baseDomain sc)
       ∧ ¬ spec_same_domain (Url.hostname u) (baseDomain sc))
      ∨ JsString.startsWith
          (JsString.ensureTrailingSlash (Url.pathname (Url.clear_hash u)))
          (basePath sc) = false
  end →
  handleLink v sc currentUrl (Some href) st = Returned st
  ∧ link_target v sc currentUrl (Some href) = None.
Proof.
  intros Hparse Hout.
  assert (Hscope : inScope v sc (Url.clear_hash u) = false).
  { destruct v; simpl.
    - destruct Hout as [(Hu & Hb & Hdiff)|Hpath].
      + apply andb_false_intro1, not_true_is_false.
        change (isSameDomain sc (Url.clear_hash u)) with (isSameDomain sc u).
        intros Hsame. apply Hdiff. by apply (isSameDomain_leading sc u).
      + by apply andb_false_intro2.
    - change (Url.hostname (Url.clear_hash u)) with (Url.hostname u).
      by apply bool_decide_eq_false. }
  assert (Htarget : link_target v sc currentUrl (Some href) = None).
  { unfold link_target. rewrite Hparse. simpl. rewrite Hscope.
    by repeat case_match. }
  by rewrite handleLink_eq, Htarget.
Qed.

(** ** The claims about [normalizeUrl] *)

(** C3 (unparsable input), in the form the code satisfies.  On a string the parser refuses,
    [normalizeUrl] does not fail: it returns the string as it is.  The
    failure comes afterwards, from the URL that [crawlWebsite] builds out
    of the seed; and a link that cannot be resolved against its page is
    passed over. *)
Theorem normalizeUrl_unparsable (s : string) :
  URL_parse s None = None →
  normalizeUrl s = Returned s
  ∧ (∀ v, crawl_init v s = Threw TypeError_InvalidURL)
  ∧ (∀ v sc currentUrl href st,
       URL_parse href (Some currentUrl) = None →
       handleLink v sc currentUrl (Some href) st = Returned st).
Proof.
  intros Hs. split_and!.
  - by rewrite normalizeUrl_eq, Hs.
  - intros v. unfold crawl_init. rewrite normalizeUrl_eq, Hs.
    cbn [mbind result_bind]. unfold URL_new. by rewrite Hs.
  - intros v sc currentUrl href st Hhref. rewrite handleLink_eq.
    unfold link_target. rewrite Hhref. by repeat case_match.
Qed.

(** C8 (fragment equivalence), in the form the code satisfies.
    [normalizeUrl] returns the URL written out from its scheme,
    credentials, host, port, path and query, without the fragment; the
    path is the parsed one, short of its trailing spaces [spaces n] when it
    is opaque and the query is null, and whole otherwise.  Hence two
    strings that parse to URLs differing at most in their fragment are
    normalized to the same text. *)
Theorem normalizeUrl_fragment_variants (s1 s2 : string) (u1 u2 : URL) :
  URL_parse s1 None = Some u1 →
  URL_parse s2 None = Some u2 →
  Url.same_up_to_fragment u1 u2 →
  ∃ kept n,
    path u1 = kept +:+ JsString.spaces n
    ∧ (n = 0 ∨ (JsString.startsWith (path u1) "/" = false ∧ query u1 = None))
    ∧ (JsString.startsWith (path u1) "/" = false ∧ query u1 = None →
       JsString.endsWith kept " " = false)
    ∧ normalizeUrl s1
      = Returned
          (scheme u1 +:+ ":"
           +:+ match host u1 with
               | Some h =>
                   "//"
                   +:+ (if bool_decide (username u1 = "" ∧ password u1 = "")
                        then ""
                        else username u1
                             +:+ (if bool_decide (password u1 = "") then ""
                                  else ":" +:+ password u1)
                             +:+ "@")
                   +:+ h
                   +:+ match port u1 with Some p => ":" +:+ p | None => "" end
               | None => if JsString.startsWith kept "//" then "/." else ""
               end
           +:+ kept
           +:+ match query u1 with Some q => "?" +:+ q | None => "" end)
    ∧ normalizeUrl s2 = normalizeUrl s1.
Proof.
  intros H1 H2 Hsame. rewrite !normalizeUrl_eq, H1, H2.
  rewrite <- (same_up_to_fragment_clear_hash u1 u2 Hsame).
  assert (Hser :
    Url.toString (Url.clear_hash u1)
    = scheme u1 +:+ ":"
      +:+ match host u1 with
          | Some h =>
              "//"
              +:+ (if bool_decide (username u1 = "" ∧ password u1 = "")
                   then ""
                   else username u1
                        +:+ (if bool_decide (password u1 = "") then ""
                             else ":" +:+ password u1)
                        +:+ "@")
              +:+ h
              +:+ match port u1 with Some p => ":" +:+ p | None => "" end
          | None =>
              if JsString.startsWith (path (Url.clear_hash u1)) "//"
              then "/." else ""
          end
      +:+ path (Url.clear_hash u1)
      +:+ match query u1 with Some q => "?" +:+ q | None => "" end).
  { unfold Url.toString, Url.credentials.
    destruct (clear_hash_fields u1) as (-> & -> & -> & -> & -> & -> & ->).
    by rewrite string_app_nil_r. }
  exists (path (Url.clear_hash u1)).
  destruct (JsString.startsWith (path u1) "/") eqn:Hlist.
  { exists 0. rewrite Hser, clear_hash_list_path by auto.
    split_and!; [by rewrite string_app_nil_r|by left|by intros [? _]|done..]. }
  destruct (query u1) as [q|] eqn:Hq.
  { exists 0. rewrite Hser, clear_hash_list_path by (right; congruence).
    split_and!; [by rewrite string_app_nil_r|by left|by intros [_ ?]|done..]. }
  assert (Hpath : path (Url.clear_hash u1) = JsString.stripTrailingSpaces (path u1)).
  { unfold Url.clear_hash, Url.has_opaque_path. cbn [path].
    by rewrite Hlist, Hq. }
  destruct (stripTrailingSpaces_spec (path u1)) as (n & Hn & Hends).
  exists n. rewrite Hser, Hpath. split_and!; [done|by right|done..].
Qed.

End Properties.

(** ** The aggregator *)

Lemma render_append_section (outputMarkdown : string) (page : Page) :
  render_append outputMarkdown page = outputMarkdown +:+ spec_section page.
Proof.
  unfold render_append, spec_section. by rewrite !string_app_assoc.
Qed.

Lemma render_from (outputMarkdown : string) (pages : list Page) :
  foldl render_append outputMarkdown pages
  = outputMarkdown +:+ spec_document pages.
Proof.
  revert outputMarkdown. induction pages as [|page rest IH]; intros out; simpl.
  - by rewrite string_app_nil_r.
  - by rewrite IH, render_append_section, string_app_assoc.
Qed.

Lemma spec_document_foldr (pages : list Page) :
  spec_document pages
  = foldr (λ page rest,
             "## " +:+ url page +:+ String "010"%char (String "010"%char "")
             +:+ content page +:+ String "010"%char (String "010"%char "")
             +:+ "---" +:+ String "010"%char (String "010"%char "")
             +:+ rest)
          "" pages.
Proof.
  induction pages as [|page rest IH]; [done|]. simpl. rewrite <- IH.
  unfold spec_section, JsString.nl. by rewrite !string_app_assoc.
Qed.

(** C9 (aggregation).  For every sequence of pages the rendered text is
    the title line [# Crawled Website Content] and an empty line, followed
    by one section per page in the order of the sequence: the header [## ]
    with the page's URL, an empty line, the page's content, an empty line,
    the separator [---] and an empty line.  Nothing is dropped, moved or
    merged, so rendering a longer sequence only appends the sections of
    the new pages. *)
Theorem render_is_title_then_sections (pages : list Page) :
  render pages
  = "# Crawled Website Content" +:+ String "010"%char (String "010"%char "")
    +:+ foldr (λ page rest,
                 "## " +:+ url page +:+ String "010"%char (String "010"%char "")
                 +:+ content page +:+ String "010"%char (String "010"%char "")
                 +:+ "---" +:+ String "010"%char (String "010"%char "")
                 +:+ rest)
              "" pages
  ∧ ∀ more,
      render (pages ++ more)
      = render pages
        +:+ foldr (λ page rest,
                     "## " +:+ url page +:+ String "010"%char (String "010"%char "")
                     +:+ content page +:+ String "010"%char (String "010"%char "")
                     +:+ "---" +:+ String "010"%char (String "010"%char "")
                     +:+ rest)
                  "" more.
Proof.
  rewrite <- !spec_document_foldr. unfold render. split.
  - rewrite render_from. unfold render_title, JsString.nl.
    by rewrite !string_app_assoc.
  - intros more. by rewrite <- spec_document_foldr, foldl_app, render_from.
Qed.

Example render_home_about :
  render [mkPage "https://a.com/" "Home"; mkPage "https://a.com/about" "About"]
  = "# Crawled Website Content" +:+ String "010"%char (String "010"%char "")
    +:+ "## https://a.com/" +:+ String "010"%char (String "010"%char "")
    +:+ "Home" +:+ String "010"%char (String "010"%char "")
    +:+ "---" +:+ String "010"%char (String "010"%char "")
    +:+ "## https://a.com/about" +:+ String "010"%char (String "010"%char "")
    +:+ "About" +:+ String "010"%char (String "010"%char "")
    +:+ "---" +:+ String "010"%char (String "010"%char "").
Proof. reflexivity. Qed.

(** ** Link discovery and cleaning *)

(** In src/index.ts the links a page adds to the queue are those of the
    tree as parsed: cleaning has no part in them. *)
Lemma index_ts_reads_parsed_tree URL_parse load html_xml turndown
    sc currentUrl html st st' :
  process_page URL_parse load html_xml turndown IndexTs sc currentUrl html st
  = Returned st' →
  queue st'
  = queue st
    ++ unvisited st (omap (link_target URL_parse IndexTs sc currentUrl)
                          (Dom.anchor_hrefs (load html))).
Proof. rewrite process_page_eq. by intros [= <-]. Qed.

(** C2 (links before cleaning): part_000 departs from it.  On a home page
    whose only link sits in its navigation bar, src/index.ts finds the link
    and crawls both pages, while part_000, which cleans the tree first,
    finds no link and crawls the home page alone. *)
Theorem part_000_cleans_before_link_discovery :
  Dom.anchor_hrefs (Sample.load Sample.nav_site
                      "<nav><a href=/about>About</a></nav><p>Home</p>")
  = [Some "/about"]
  ∧ page_links Sample.URL_parse (Sample.load Sample.nav_site) IndexTs
      (mkScope "a.com" "/") "https://a.com/"
      "<nav><a href=/about>About</a></nav><p>Home</p>"
    = ["https://a.com/about"]
  ∧ page_links Sample.URL_parse (Sample.load Sample.nav_site) Part000
      (mkScope "a.com" "") "https://a.com/"
      "<nav><a href=/about>About</a></nav><p>Home</p>"
    = []
  ∧ Sample.crawl_urls Sample.nav_site IndexTs 5 "https://a.com/"
    = Some (Returned ["https://a.com/"; "https://a.com/about"])
  ∧ Sample.crawl_urls Sample.nav_site Part000 5 "https://a.com/"
    = Some (Returned ["https://a.com/"]).
Proof. split_and!; by vm_compute. Qed.

(** ** The domain check *)

(** C6 (the [www.] comparison): src/index.ts departs from it.  The check
    removes the first [www.] wherever it stands, so it takes
    [exawww.mple.com] for the domain of [example.com], and
    [docs.www.example.com] for [docs.example.com], although stripping a
    leading [www.] label leaves each pair different; crawling
    [example.com] then fetches the page of the other host. *)
Theorem same_domain_removes_www_anywhere :
  isSameDomain (mkScope "example.com" "/")
    (mkURL "https" "" "" (Some "exawww.mple.com") None "/" None None) = true
  ∧ ¬ spec_same_domain "exawww.mple.com" "example.com"
  ∧ isSameDomain (mkScope "docs.example.com" "/")
      (mkURL "https" "" "" (Some "docs.www.example.com") None "/" None None) = true
  ∧ ¬ spec_same_domain "docs.www.example.com" "docs.example.com"
  ∧ Sample.crawl_urls Sample.lookalike_site IndexTs 5 "https://example.com/"
    = Some (Returned ["https://example.com/"; "https://exawww.mple.com/"]).
Proof. split_and!; by vm_compute. Qed.

(** ** Concrete runs *)

Lemma each_url_fetched_once_witness :
  NoDup (requests Sample.dup_final)
  ∧ NoDup (url <$> pages Sample.dup_final)
  ∧ (∀ u, u ∈ requests Sample.dup_final ↔ u ∈ visited Sample.dup_final)
  ∧ (∀ p, p ∈ pages Sample.dup_final → url p ∈ requests Sample.dup_final).
Proof.
  apply (each_url_fetched_once Sample.URL_parse (Sample.fetch Sample.dup_site)
           (Sample.load Sample.dup_site) Sample.html_xml Sample.turndown
           IndexTs "https://a.com/#top" (mkScope "a.com" "/")
           (mkState ["https://a.com/"] ∅ [] [])).
  - vm_compute. reflexivity.
  - apply (crawl_loop_steps _ _ _ _ _ _ _ 5). vm_compute. reflexivity.
Defined.

(** C3: on a string that is no URL, [normalizeUrl] returns a value, the
    string itself, where the claim has it fail. *)
Lemma normalizeUrl_unparsable_counterexample :
  Sample.URL_parse "not a url" None = None
  ∧ normalizeUrl Sample.URL_parse "not a url" = Returned "not a url"
  ∧ normalizeUrl Sample.URL_parse "not a url" ≠ Threw TypeError_InvalidURL.
Proof. split_and!; by vm_compute. Qed.

Lemma normalizeUrl_unparsable_witness :
  normalizeUrl Sample.URL_parse "not a url" = Returned "not a url"
  ∧ (∀ v, crawl_init Sample.URL_parse v "not a url" = Threw TypeError_InvalidURL)
  ∧ (∀ v sc currentUrl href st,
       Sample.URL_parse href (Some currentUrl) = None →
       handleLink Sample.URL_parse v sc currentUrl (Some href) st = Returned st).
Proof.
  apply (normalizeUrl_unparsable Sample.URL_parse "not a url").
  vm_compute. reflexivity.
Defined.

(** C4: the link [/logo.png?v=2] resolves to a URL whose path ends in
    [.png], yet it is queued and its target is crawled, by either source
    file: the test reads the [href] text, which ends in [?v=2]. *)
Lemma asset_path_counterexample :
  Sample.URL_parse "/logo.png?v=2" (Some "https://a.com/")
  = Some (mkURL "https" "" "" (Some "a.com") None "/logo.png" (Some "v=2") None)
  ∧ JsString.endsWith "/logo.png" ".png" = true
  ∧ handleLink Sample.URL_parse IndexTs (mkScope "a.com" "/") "https://a.com/"
      (Some "/logo.png?v=2")
      (mkState [] {[ "https://a.com/" ]} [] ["https://a.com/"])
    = Returned (mkState ["https://a.com/logo.png?v=2"] {[ "https://a.com/" ]}
                  [] ["https://a.com/"])
  ∧ Sample.crawl_urls Sample.asset_site IndexTs 5 "https://a.com/"
    = Some (Returned ["https://a.com/"; "https://a.com/logo.png?v=2"])
  ∧ Sample.crawl_urls Sample.asset_site Part000 5 "https://a.com/"
    = Some (Returned ["https://a.com/"; "https://a.com/logo.png?v=2"]).
Proof. split_and!; by vm_compute. Qed.

Lemma asset_href_rejected_witness :
  handleLink Sample.URL_parse IndexTs (mkScope "a.com" "/") "https://a.com/"
    (Some "/img/Logo.PNG") (mkState [] {[ "https://a.com/" ]} [] ["https://a.com/"])
  = Returned (mkState [] {[ "https://a.com/" ]} [] ["https://a.com/"])
  ∧ link_target Sample.URL_parse IndexTs (mkScope "a.com" "/") "https://a.com/"
      (Some "/img/Logo.PNG")
    = None.
Proof.
  apply (asset_href_rejected Sample.URL_parse IndexTs (mkScope "a.com" "/")
           "https://a.com/" "/img/Logo.PNG" "/img/logo" "png").
  - vm_compute. do 2 right. left.
  - reflexivity.
Defined.

(** C5: in src/index.ts the link to [www.a.com], whose host name is not
    the seed's [a.com], is queued and crawled (part_000 leaves it out). *)
Lemma www_host_counterexample :
  Sample.URL_parse "https://www.a.com/page" (Some "https://a.com/")
  = Some (mkURL "https" "" "" (Some "www.a.com") None "/page" None None)
  ∧ "www.a.com" ≠ "a.com"
  ∧ handleLink Sample.URL_parse IndexTs (mkScope "a.com" "/") "https://a.com/"
      (Some "https://www.a.com/page")
      (mkState [] {[ "https://a.com/" ]} [] ["https://a.com/"])
    = Returned (mkState ["https://www.a.com/page"] {[ "https://a.com/" ]}
                  [] ["https://a.com/"])
  ∧ Sample.crawl_urls Sample.www_site IndexTs 5 "https://a.com/"
    = Some (Returned ["https://a.com/"; "https://www.a.com/page"])
  ∧ Sample.crawl_urls Sample.www_site Part000 5 "https://a.com/"
    = Some (Returned ["https://a.com/"]).
Proof. split_and!; by vm_compute. Qed.

Lemma out_of_scope_link_rejected_witness :
  (handleLink Sample.URL_parse IndexTs (mkScope "a.com" "/docs/")
     "https://a.com/docs/" (Some "https://other.com/page")
     (mkState [] {[ "https://a.com/docs/" ]} [] ["https://a.com/docs/"])
   = Returned (mkState [] {[ "https://a.com/docs/" ]} [] ["https://a.com/docs/"])
   ∧ link_target Sample.URL_parse IndexTs (mkScope "a.com" "/docs/")
       "https://a.com/docs/" (Some "https://other.com/page") = None)
  ∧ (handleLink Sample.URL_parse IndexTs (mkScope "a.com" "/docs/")
       "https://a.com/docs/" (Some "https://a.com/blog/post")
       (mkState [] {[ "https://a.com/docs/" ]} [] ["https://a.com/docs/"])
     = Returned (mkState [] {[ "https://a.com/docs/" ]} [] ["https://a.com/docs/"])
     ∧ link_target Sample.URL_parse IndexTs (mkScope "a.com" "/docs/")
         "https://a.com/docs/" (Some "https://a.com/blog/post") = None)
  ∧ (handleLink Sample.URL_parse Part000 (mkScope "a.com" "")
       "https://a.com/" (Some "https://other.com/page")
       (mkState [] {[ "https://a.com/" ]} [] ["https://a.com/"])
     = Returned (mkState [] {[ "https://a.com/" ]} [] ["https://a.com/"])
     ∧ link_target Sample.URL_parse Part000 (mkScope "a.com" "")
         "https://a.com/" (Some "https://other.com/page") = None).
Proof.
  split; [|split].
  - apply (out_of_scope_link_rejected Sample.URL_parse IndexTs
             (mkScope "a.com" "/docs/") "https://a.com/docs/"
             "https://other.com/page"
             (mkURL "https" "" "" (Some "other.com") None "/page" None None)).
    + reflexivity.
    + left. split_and!; [by right | by right | by vm_compute].
  - apply (out_of_scope_link_rejected Sample.URL_parse IndexTs
             (mkScope "a.com" "/docs/") "https://a.com/docs/"
             "https://a.com/blog/post"
             (mkURL "https" "" "" (Some "a.com") None "/blog/post" None None)).
    + reflexivity.
    + right. reflexivity.
  - apply (out_of_scope_link_rejected Sample.URL_parse Part000
             (mkScope "a.com" "") "https://a.com/"
             "https://other.com/page"
             (mkURL "https" "" "" (Some "other.com") None "/page" None None)).
    + reflexivity.
    + by vm_compute.
Defined.

(** C8: the platform's hash setter also strips the trailing spaces of an
    opaque path, so on this [data:] URL normalization removes three spaces
    of the path along with the fragment. *)
Lemma normalizeUrl_opaque_path_counterexample :
  Sample.data_parse "data:text/plain,hi   #f" None
  = Some (mkURL "data" "" "" None None "text/plain,hi   " None (Some "f"))
  ∧ normalizeUrl Sample.data_parse "data:text/plain,hi   #f"
    = Returned "data:text/plain,hi"
  ∧ "data:text/plain,hi" ≠ "data:text/plain,hi   ".
Proof. split_and!; by vm_compute. Qed.

Lemma normalizeUrl_fragment_variants_witness :
  (normalizeUrl Sample.URL_parse "https://a.com/x#sec1" = Returned "https://a.com/x"
   ∧ normalizeUrl Sample.URL_parse "https://a.com/x#sec2" = Returned "https://a.com/x"
   ∧ normalizeUrl Sample.URL_parse "https://a.com/x" = Returned "https://a.com/x")
  ∧ ∃ kept n,
      "/x" = kept +:+ JsString.spaces n
      ∧ (n = 0 ∨ (JsString.startsWith "/x" "/" = false ∧ @None string = None))
      ∧ (JsString.startsWith "/x" "/" = false ∧ @None string = None →
         JsString.endsWith kept " " = false)
      ∧ normalizeUrl Sample.URL_parse "https://a.com/x#sec1"
        = Returned
            ("https" +:+ ":" +:+ ("//" +:+ "" +:+ "a.com" +:+ "")
             +:+ kept +:+ "")
      ∧ normalizeUrl Sample.URL_parse "https://a.com/x#sec2"
        = normalizeUrl Sample.URL_parse "https://a.com/x#sec1".
Proof.
  split; [by vm_compute|].
  apply (normalizeUrl_fragment_variants Sample.URL_parse
           "https://a.com/x#sec1" "https://a.com/x#sec2"
           (mkURL "https" "" "" (Some "a.com") None "/x" None (Some "sec1"))
           (mkURL "https" "" "" (Some "a.com") None "/x" None (Some "sec2")));
    [reflexivity | reflexivity | by vm_compute].
Defined.

(** C7: [/b] is linked from the home page, lies in scope and answers 200,
    with an empty body; the crawl ends without its page.  ([/a] answers
    404 and [/d] does not answer.) *)
Lemma empty_body_page_counterexample :
  Sample.fetch Sample.flaky_site "https://a.com/b"
  = Some (Response true "OK" (Some ""))
  ∧ page_links Sample.URL_parse (Sample.load Sample.flaky_site) IndexTs
      (mkScope "a.com" "/") "https://a.com/" Sample.flaky_home
    = ["https://a.com/a"; "https://a.com/b"; "https://a.com/c"; "https://a.com/d"]
  ∧ Sample.crawl_urls Sample.flaky_site IndexTs 8 "https://a.com/"
    = Some (Returned ["https://a.com/"; "https://a.com/c"])
  ∧ Sample.crawl_urls Sample.flaky_site Part000 8 "https://a.com/"
    = Some (Returned ["https://a.com/"; "https://a.com/c"]).
Proof. split_and!; by vm_compute. Qed.

(** Nothing but its five URLs can be reached on [flaky_site]. *)
Lemma flaky_site_reachable (w : string) :
  reachable Sample.URL_parse (Sample.fetch Sample.flaky_site)
    (Sample.load Sample.flaky_site) IndexTs (mkScope "a.com" "/")
    "https://a.com/" w →
  w ∈ Sample.flaky_urls.
Proof.
  unfold reachable. revert w. apply rtc_ind_r.
  { unfold Sample.flaky_urls. set_solver. }
  intros y z _ (html & Hfetch & Hne & Hlink) Hy.
  unfold Sample.flaky_urls in Hy. set_unfold in Hy.
  destruct Hy as [[[[-> | ->] | ->] | ->] | ->];
    vm_compute in Hfetch; try discriminate Hfetch;
    injection Hfetch as <-; try done.
  - change (z ∈ page_links Sample.URL_parse (Sample.load Sample.flaky_site)
                  IndexTs (mkScope "a.com" "/") "https://a.com/"
                  Sample.flaky_home) in Hlink.
    replace (page_links Sample.URL_parse (Sample.load Sample.flaky_site)
               IndexTs (mkScope "a.com" "/") "https://a.com/" Sample.flaky_home)
      with ["https://a.com/a"; "https://a.com/b"; "https://a.com/c";
            "https://a.com/d"] in Hlink by (by vm_compute).
    unfold Sample.flaky_urls. set_solver.
  - replace (page_links Sample.URL_parse (Sample.load Sample.flaky_site)
               IndexTs (mkScope "a.com" "/") "https://a.com/c" "<p>C</p>")
      with (@nil string) in Hlink by (by vm_compute).
    by apply elem_of_nil in Hlink.
Qed.

Lemma crawl_survives_fetch_failures_witness :
  ∃ fuel st,
    crawl_loop Sample.URL_parse (Sample.fetch Sample.flaky_site)
      (Sample.load Sample.flaky_site) Sample.html_xml Sample.turndown
      IndexTs (mkScope "a.com" "/") fuel (mkState ["https://a.com/"] ∅ [] [])
    = Some (Returned st)
    ∧ NoDup (requests st)
    ∧ (∀ w, w ∈ requests st
            ↔ reachable Sample.URL_parse (Sample.fetch Sample.flaky_site)
                (Sample.load Sample.flaky_site) IndexTs (mkScope "a.com" "/")
                "https://a.com/" w)
    ∧ (∀ u, falsy (fetchPage (Sample.fetch Sample.flaky_site) u) = true →
            u ∉ url <$> pages st)
    ∧ (∀ w html,
         reachable Sample.URL_parse (Sample.fetch Sample.flaky_site)
           (Sample.load Sample.flaky_site) IndexTs (mkScope "a.com" "/")
           "https://a.com/" w →
         fetchPage (Sample.fetch Sample.flaky_site) w = Some html → html ≠ "" →
         mkPage w (page_content (Sample.load Sample.flaky_site) Sample.html_xml
                     Sample.turndown IndexTs html)
         ∈ pages st).
Proof.
  apply (crawl_survives_fetch_failures Sample.URL_parse
           (Sample.fetch Sample.flaky_site) (Sample.load Sample.flaky_site)
           Sample.html_xml Sample.turndown IndexTs "https://a.com/"
           (mkScope "a.com" "/") (mkState ["https://a.com/"] ∅ [] [])
           "https://a.com/" Sample.flaky_urls).
  - vm_compute. reflexivity.
  - vm_compute. reflexivity.
  - exact flaky_site_reachable.
Defined.

(** C10: the seed [https://a.com/logo.png] is requested and answers 200
    with an empty body; the crawl ends with no page at all. *)
Lemma empty_seed_counterexample :
  Sample.fetch Sample.empty_logo_site "https://a.com/logo.png"
  = Some (Response true "OK" (Some ""))
  ∧ Sample.crawl Sample.empty_logo_site IndexTs 3 "https://a.com/logo.png"
    = Some (Returned ([], render_title))
  ∧ Sample.crawl Sample.empty_logo_site Part000 3 "https://a.com/logo.png"
    = Some (Returned ([], render_title)).
Proof. split_and!; by vm_compute. Qed.

Lemma seed_is_always_fetched_witness :
  isAssetHref "https://a.com/logo.png" = true
  ∧ (∃ st1,
       step Sample.URL_parse (Sample.fetch Sample.logo_site)
         (Sample.load Sample.logo_site) Sample.html_xml Sample.turndown
         IndexTs (mkScope "a.com" "/logo.png/")
         (mkState ["https://a.com/logo.png"] ∅ [] []) st1
       ∧ requests st1 = ["https://a.com/logo.png"])
  ∧ ∀ fuel r,
      crawl_loop Sample.URL_parse (Sample.fetch Sample.logo_site)
        (Sample.load Sample.logo_site) Sample.html_xml Sample.turndown
        IndexTs (mkScope "a.com" "/logo.png/") fuel
        (mkState ["https://a.com/logo.png"] ∅ [] []) = Some r →
      ∃ st,
        r = Returned st
        ∧ head (requests st) = Some "https://a.com/logo.png"
        ∧ ∀ html,
            fetchPage (Sample.fetch Sample.logo_site) "https://a.com/logo.png"
            = Some html →
            html ≠ "" →
            head (pages st)
            = Some (mkPage "https://a.com/logo.png"
                      (page_content (Sample.load Sample.logo_site)
                         Sample.html_xml Sample.turndown IndexTs html)).
Proof.
  split; [reflexivity|].
  apply (seed_is_always_fetched Sample.URL_parse (Sample.fetch Sample.logo_site)
           (Sample.load Sample.logo_site) Sample.html_xml Sample.turndown
           IndexTs "https://a.com/logo.png#top" (mkScope "a.com" "/logo.png/")
           (mkState ["https://a.com/logo.png"] ∅ [] [])
           "https://a.com/logo.png").
  - vm_compute. reflexivity.
  - vm_compute. reflexivity.
Defined.

(** ** Fragments under the reference parser

    On the reference parser the relation of C8 is what appending a
    fragment to a URL text gives: whatever fragments are appended to a
    text with no [#] in it, the normalized URL is that of the text. *)

Lemma split_at_fragment (s f : string) :
  Sample.split_at "#" s = (s, None) →
  Sample.split_at "#" (s +:+ "#" +:+ f) = (s, Some f).
Proof.
  induction s as [|c s IH]; [done|].
  change (String c s +:+ "#" +:+ f) with (String c (s +:+ "#" +:+ f)).
  cbn [Sample.split_at]. destruct (bool_decide (c = "#"%char)); [done|].
  destruct (Sample.split_at "#" s) as [before after] eqn:Hsplit.
  intros [= -> ->]. by rewrite IH.
Qed.

Lemma parse_absolute_fragment (s f : string) :
  Sample.split_at "#" s = (s, None) →
  Sample.parse_absolute (s +:+ "#" +:+ f)
  = (λ u, mkURL (scheme u) (username u) (password u) (host u) (port u)
                (path u) (query u) (Some f))
    <$> Sample.parse_absolute s.
Proof.
  intros Hs. unfold Sample.parse_absolute.
  rewrite (split_at_fragment s f Hs), Hs.
  destruct (Sample.split_at "?" s) as [s2 qry].
  destruct (Sample.strip_scheme s2) as [[sch rest]|]; [|done].
  destruct (Sample.split_at "/" rest) as [h p].
  by destruct (_ || _).
Qed.

Lemma reference_parser_fragment_variants (s f1 f2 : string) (u : URL) :
  Sample.split_at "#" s = (s, None) →
  Sample.URL_parse s None = Some u →
  normalizeUrl Sample.URL_parse (s +:+ "#" +:+ f1)
  = normalizeUrl Sample.URL_parse s
  ∧ normalizeUrl Sample.URL_parse (s +:+ "#" +:+ f2)
    = normalizeUrl Sample.URL_parse (s +:+ "#" +:+ f1).
Proof.
  intros Hs Hu. rewrite !normalizeUrl_eq. simpl in *.
  rewrite !parse_absolute_fragment, Hu by done. done.
Qed.

(** * Further properties of the sources *)

(** ** Cleaning the tree *)

(** Induction over a tree that reaches the children of an element. *)
Fixpoint node_children_ind (P : node → Prop)
    (HText : ∀ data, P (Text data))
    (HElement : ∀ tag attrs children,
       Forall P children → P (Element tag attrs children))
    (n : node) : P n :=
  match n with
  | Text data => HText data
  | Element tag attrs children =>
      HElement tag attrs children
        ((fix go (l : list node) : Forall P l :=
            match l with
            | [] => @List.Forall_nil node P
            | c :: l' =>
                @List.Forall_cons node P c l'
                  (node_children_ind P HText HElement c) (go l')
            end) children)
  end.

Lemma matches_group_shallow (group : list Dom.selector) :
  shallow (Dom.matches_group group).
Proof. done. Qed.

Lemma is_anchor_with_href_shallow : shallow Dom.is_anchor_with_href.
Proof. done. Qed.

Lemma href_of_shallow : shallow href_of.
Proof. done. Qed.

Lemma sublist_map {A B} (f : A → B) (l1 l2 : list A) :
  l1 `sublist_of` l2 → map f l1 `sublist_of` map f l2.
Proof. induction 1; simpl; by constructor. Qed.

(** What is selected in the tree after a removal was selected before it,
    in the same order, as far as tags and attributes can tell. *)
Lemma select_remove_node_sublist {B} (p : node → bool) (f : node → B)
    (group : list Dom.selector) (n : node) :
  shallow p → shallow f →
  map f (from_option (Dom.select_node p) [] (Dom.remove_node group n))
  `sublist_of` map f (Dom.select_node p n).
Proof.
  intros Hp Hf. induction n as [data|tag attrs children IH] using node_children_ind.
  - cbn [Dom.remove_node].
    by destruct (Dom.matches_group group (Text data)); [apply sublist_nil_l|].
  - cbn [Dom.remove_node].
    destruct (Dom.matches_group group (Element tag attrs children));
      [apply sublist_nil_l|].
    cbn [from_option Dom.select_node].
    rewrite (Hp tag attrs _ children), !map_app.
    apply sublist_app.
    { destruct (p (Element tag attrs children)); simpl; [|done].
      by rewrite (Hf tag attrs _ children). }
    induction IH as [|c cs Hc _ IHcs]; [done|]. simpl.
    destruct (Dom.remove_node group c) as [c'|]; simpl in *.
    + rewrite !map_app. by apply sublist_app.
    + rewrite map_app. by apply sublist_inserts_l.
Qed.

Lemma select_remove_sublist {B} (p : node → bool) (f : node → B)
    (group : list Dom.selector) (doc : list node) :
  shallow p → shallow f →
  map f (Dom.select p (Dom.remove group doc))
  `sublist_of` map f (Dom.select p doc).
Proof.
  intros Hp Hf. unfold Dom.select, Dom.remove.
  induction doc as [|n doc IH]; [done|]. simpl.
  pose proof (select_remove_node_sublist p f group n Hp Hf) as Hn.
  destruct (Dom.remove_node group n) as [n'|]; simpl in *.
  - rewrite !map_app. by apply sublist_app.
  - rewrite map_app. by apply sublist_inserts_l.
Qed.

(** A removal leaves nothing that matches its selector group. *)
Lemma select_remove_node_same (group : list Dom.selector) (n n' : node) :
  Dom.remove_node group n = Some n' →
  Dom.select_node (Dom.matches_group group) n' = [].
Proof.
  revert n'. induction n as [data|tag attrs children IH] using node_children_ind;
    intros n'; cbn [Dom.remove_node].
  - destruct (Dom.matches_group group (Text data)) eqn:Hm; [done|].
    intros [= <-]. simpl in *. by rewrite Hm.
  - destruct (Dom.matches_group group (Element tag attrs children)) eqn:Hm; [done|].
    intros [= <-]. cbn [Dom.select_node].
    rewrite (matches_group_shallow group tag attrs _ children), Hm. simpl.
    clear Hm. induction IH as [|c cs Hc _ IHcs]; [done|]. simpl.
    destruct (Dom.remove_node group c) as [c'|] eqn:Hrc; [|done].
    simpl. by rewrite (Hc c').
Qed.

Lemma select_remove_same (group : list Dom.selector) (doc : list node) :
  Dom.select (Dom.matches_group group) (Dom.remove group doc) = [].
Proof.
  unfold Dom.select, Dom.remove. induction doc as [|n doc IH]; [done|]. simpl.
  destruct (Dom.remove_node group n) as [n'|] eqn:Hn; [|done].
  simpl. by rewrite (select_remove_node_same group n n' Hn).
Qed.

(** A removal that finds nothing to remove changes nothing. *)
Lemma remove_node_nothing (group : list Dom.selector) (n : node) :
  Dom.select_node (Dom.matches_group group) n = [] →
  Dom.remove_node group n = Some n.
Proof.
  induction n as [data|tag attrs children IH] using node_children_ind;
    cbn [Dom.select_node Dom.remove_node].
  - by destruct (Dom.matches_group group (Text data)).
  - destruct (Dom.matches_group group (Element tag attrs children)); [done|].
    simpl. intros Hnone. do 2 f_equal.
    induction IH as [|c cs Hc _ IHcs]; [done|]. simpl in *.
    apply app_eq_nil in Hnone as [Hc' Hcs'].
    rewrite (Hc Hc'). f_equal. exact (IHcs Hcs').
Qed.

Lemma remove_nothing (group : list Dom.selector) (doc : list node) :
  Dom.select (Dom.matches_group group) doc = [] →
  Dom.remove group doc = doc.
Proof.
  unfold Dom.select, Dom.remove. induction doc as [|n doc IH]; [done|]. simpl.
  intros [Hn Hdoc]%app_eq_nil.
  rewrite (remove_node_nothing group n Hn). f_equal. exact (IH Hdoc).
Qed.

Lemma select_remove_other (group group' : list Dom.selector) (doc : list node) :
  Dom.select (Dom.matches_group group) doc = [] →
  Dom.select (Dom.matches_group group) (Dom.remove group' doc) = [].
Proof.
  intros Hnone.
  pose proof (select_remove_sublist (Dom.matches_group group) (λ _, ()) group' doc
                (matches_group_shallow group) (λ _ _ _ _, eq_refl)) as Hsub.
  rewrite Hnone in Hsub. apply sublist_nil_r in Hsub.
  by apply map_eq_nil in Hsub.
Qed.

(** The same three facts for a run of removals. *)
Lemma remove_steps_other (group : list Dom.selector)
    (steps : list (list Dom.selector)) (doc : list node) :
  Dom.select (Dom.matches_group group) doc = [] →
  Dom.select (Dom.matches_group group)
    (foldl (λ d g, Dom.remove g d) doc steps) = [].
Proof.
  revert doc. induction steps as [|s steps IH]; intros doc Hnone; [done|].
  simpl. by apply IH, select_remove_other.
Qed.

Lemma remove_steps_same (steps : list (list Dom.selector)) (doc : list node)
    (group : list Dom.selector) :
  group ∈ steps →
  Dom.select (Dom.matches_group group)
    (foldl (λ d g, Dom.remove g d) doc steps) = [].
Proof.
  revert doc. induction steps as [|s steps IH]; intros doc Hin.
  - by apply elem_of_nil in Hin.
  - simpl. apply elem_of_cons in Hin as [->|Hin]; [|by apply IH].
    apply remove_steps_other, select_remove_same.
Qed.

Lemma remove_steps_nothing (steps : list (list Dom.selector)) (doc : list node) :
  (∀ group, group ∈ steps → Dom.select (Dom.matches_group group) doc = []) →
  foldl (λ d g, Dom.remove g d) doc steps = doc.
Proof.
  induction steps as [|s steps IH]; intros Hnone; [done|]. simpl.
  rewrite remove_nothing by (apply Hnone; left).
  apply IH. intros group Hin. apply Hnone. by right.
Qed.

Lemma remove_steps_sublist {B} (p : node → bool) (f : node → B)
    (steps : list (list Dom.selector)) (doc : list node) :
  shallow p → shallow f →
  map f (Dom.select p (foldl (λ d g, Dom.remove g d) doc steps))
  `sublist_of` map f (Dom.select p doc).
Proof.
  intros Hp Hf. revert doc. induction steps as [|s steps IH]; intros doc; [done|].
  simpl. etrans; [apply IH|]. by apply select_remove_sublist.
Qed.

(** After [cleanHtmlContent] no node of the tree matches any of the
    selectors it removes, in either source file. *)
Theorem cleanHtmlContent_noise_free (v : source_file) (doc : list node) :
  noise_free v (cleanHtmlContent v doc).
Proof. intros group Hin. by apply remove_steps_same. Qed.

(** On a tree that holds none of the nodes it removes, [cleanHtmlContent]
    gives the tree back unchanged. *)
Theorem cleanHtmlContent_keeps_clean_tree (v : source_file) (doc : list node) :
  noise_free v doc → cleanHtmlContent v doc = doc.
Proof. intros Hfree. by apply remove_steps_nothing. Qed.

(** Cleaning twice is cleaning once. *)
Theorem cleanHtmlContent_idempotent (v : source_file) (doc : list node) :
  cleanHtmlContent v (cleanHtmlContent v doc) = cleanHtmlContent v doc.
Proof.
  apply remove_steps_nothing. intros group Hin. by apply remove_steps_same.
Qed.

(** Cleaning can hide links and cannot bring one up: the [href]s read
    from the cleaned tree are among those of the tree as parsed, in the
    same order. *)
Theorem cleanHtmlContent_hides_links_only (v : source_file) (doc : list node) :
  Dom.anchor_hrefs (cleanHtmlContent v doc) `sublist_of` Dom.anchor_hrefs doc.
Proof.
  apply (remove_steps_sublist Dom.is_anchor_with_href href_of);
    [apply is_anchor_with_href_shallow | apply href_of_shallow].
Qed.

(** ** The string tests of link extraction *)

Lemma endsWith_app (s suf : string) : JsString.endsWith (s +:+ suf) suf = true.
Proof. apply endsWith_spec. by exists s. Qed.

(** The trailing-slash replacement always ends in a slash, leaves a text
    that ends in one as it is, and so does nothing when repeated. *)
Theorem ensureTrailingSlash_closed (s : string) :
  JsString.endsWith (JsString.ensureTrailingSlash s) "/" = true
  ∧ (JsString.endsWith s "/" = true → JsString.ensureTrailingSlash s = s)
  ∧ JsString.ensureTrailingSlash (JsString.ensureTrailingSlash s)
    = JsString.ensureTrailingSlash s.
Proof.
  assert (Hends : JsString.endsWith (JsString.ensureTrailingSlash s) "/" = true).
  { rewrite ensureTrailingSlash_spec.
    destruct (JsString.endsWith s "/") eqn:Hs; [done | apply endsWith_app]. }
  split_and!; [done| |].
  - intros Hs. by rewrite ensureTrailingSlash_spec, Hs.
  - by rewrite (ensureTrailingSlash_spec (JsString.ensureTrailingSlash s)), Hends.
Qed.

Lemma string_app_cons (c : ascii) (s t : string) :
  String c s +:+ t = String c (s +:+ t).
Proof. done. Qed.

(** Two ways of cutting a text that ends in the character [c]. *)
Lemma string_app_snoc_inv (b rest p : string) (c : ascii) :
  b +:+ rest = p +:+ String c "" →
  (rest = "" ∧ b = p +:+ String c "")
  ∨ ∃ rest', rest = rest' +:+ String c "" ∧ p = b +:+ rest'.
Proof.
  revert p. induction b as [|x b IH]; intros p Heq.
  - right. by exists p.
  - rewrite string_app_cons in Heq. destruct p as [|y p].
    + injection Heq as -> Heq. left.
      destruct b; [|discriminate Heq]. by simpl in Heq; subst.
    + rewrite string_app_cons in Heq. injection Heq as -> Heq.
      destruct (IH p Heq) as [[-> ->]|(rest' & -> & ->)]; [by left|].
      right. by exists rest'.
Qed.

Lemma startsWith_app (s p rest : string) :
  JsString.startsWith s p = true → JsString.startsWith (s +:+ rest) p = true.
Proof.
  intros [r ->]%startsWith_spec. apply startsWith_spec.
  exists (r +:+ rest). apply string_app_assoc.
Qed.

(** The path test of src/index.ts, read on the path itself: a path is
    under the base path when it starts with it, or when it is the base
    path short of its final slash. *)
Theorem isUnderBasePath_iff (sc : scope) (u : URL) :
  isUnderBasePath sc u = true
  ↔ JsString.startsWith (Url.pathname u) (basePath sc) = true
    ∨ (JsString.endsWith (Url.pathname u) "/" = false
       ∧ Url.pathname u +:+ "/" = basePath sc).
Proof.
  unfold isUnderBasePath. rewrite ensureTrailingSlash_spec.
  destruct (JsString.endsWith (Url.pathname u) "/") eqn:Hends.
  { split; [by left | by intros [?|[? _]]]. }
  split.
  - intros [rest Hrest]%startsWith_spec. symmetry in Hrest.
    destruct (string_app_snoc_inv _ _ _ _ Hrest) as [[_ ->]|(rest' & _ & Hp)].
    + by right.
    + left. apply startsWith_spec. by exists rest'.
  - intros [Hstart|[_ <-]].
    + by apply startsWith_app.
    + apply startsWith_refl.
Qed.

Lemma toLowerCase_app (s t : string) :
  JsString.toLowerCase (s +:+ t)
  = JsString.toLowerCase s +:+ JsString.toLowerCase t.
Proof.
  induction s as [|c s IH]; [done|].
  rewrite string_app_cons. simpl. by rewrite IH.
Qed.

(** The asset test looks at the end of the [href] only: what it rejects
    it rejects under any prefix, so an asset is turned down whether the
    link is written relative, absolute or with a host. *)
Theorem isAssetHref_any_prefix (pre href : string) :
  isAssetHref href = true → isAssetHref (pre +:+ href) = true.
Proof.
  intros (pre' & ext & Hext & Hlow)%isAssetHref_spec.
  apply isAssetHref_spec.
  exists (JsString.toLowerCase pre +:+ pre'), ext. split; [done|].
  by rewrite toLowerCase_app, Hlow, string_app_assoc.
Qed.

(** In src/index.ts a host and its [www.] twin pass the domain check in
    both directions, whenever [www.] occurs nowhere in the bare host. *)
Theorem www_twin_is_same_domain (h bp : string) (u : URL) :
  JsString.includes h "www." = false →
  (Url.hostname u = "www." +:+ h → isSameDomain (mkScope h bp) u = true)
  ∧ (Url.hostname u = h → isSameDomain (mkScope ("www." +:+ h) bp) u = true).
Proof.
  intros Hbare.
  assert (Htwin : JsString.replace "www." "" ("www." +:+ h) = h).
  { by rewrite replace_leading. }
  assert (Hself : JsString.replace "www." "" h = h)
    by by apply replace_not_included.
  unfold isSameDomain. cbn [baseDomain].
  split; intros ->; apply bool_decide_eq_true; by rewrite Htwin, Hself.
Qed.

(** ** The crawl as a whole *)

Section CrawlProperties.

Variable URL_parse : string → option string → option URL.
Variable fetch : string → option response.
Variable load : string → list node.
Variable html_xml : list node → string.
Variable turndown : string → string.

Local Abbreviation normalizeUrl := (normalizeUrl URL_parse).
Local Abbreviation fetchPage := (fetchPage fetch).
Local Abbreviation loop_body := (loop_body URL_parse fetch load html_xml turndown).
Local Abbreviation crawl_loop := (crawl_loop URL_parse fetch load html_xml turndown).
Local Abbreviation crawl_init := (crawl_init URL_parse).
Local Abbreviation crawlWebsite := (crawlWebsite URL_parse fetch load html_xml turndown).
Local Abbreviation step := (step URL_parse fetch load html_xml turndown).
Local Abbreviation link_target := (link_target URL_parse).
Local Abbreviation page_links := (page_links URL_parse load).

Lemma clear_hash_idempotent (u : URL) :
  Url.clear_hash (Url.clear_hash u) = Url.clear_hash u.
Proof.
  destruct u as [sch usr pwd h prt p q f].
  unfold Url.clear_hash, Url.has_opaque_path.
  cbn [scheme username password host port path query fragment].
  destruct (negb (JsString.startsWith p "/") && bool_decide (q = None)) eqn:Hstrip.
  - rewrite stripTrailingSpaces_first, Hstrip.
    by rewrite stripTrailingSpaces_idempotent.
  - by rewrite Hstrip.
Qed.

(** Where the platform parser reads the serialization of a URL back as
    that URL, normalizing a URL text twice gives what normalizing it once
    gives. *)
Theorem normalizeUrl_idempotent (s : string) (u : URL) :
  URL_parse s None = Some u →
  URL_parse (Url.toString (Url.clear_hash u)) None = Some (Url.clear_hash u) →
  normalizeUrl s = Returned (Url.toString (Url.clear_hash u))
  ∧ normalizeUrl (Url.toString (Url.clear_hash u))
    = Returned (Url.toString (Url.clear_hash u)).
Proof.
  intros Hs Hback. rewrite !normalizeUrl_eq, Hs, Hback.
  by rewrite clear_hash_idempotent.
Qed.

(** What a link target is made of. *)
Lemma link_target_Some v sc currentUrl href w :
  link_target v sc currentUrl href = Some w →
  ∃ h u,
    href = Some h ∧ h ≠ "" ∧ isAssetHref h = false
    ∧ URL_parse h (Some currentUrl) = Some u
    ∧ inScope v sc (Url.clear_hash u) = true
    ∧ w = Url.toString (Url.clear_hash u).
Proof.
  unfold link_target. destruct href as [h|]; [|done].
  destruct (bool_decide (h = "")) eqn:Hempty; [done|].
  apply bool_decide_eq_false in Hempty.
  destruct (isAssetHref h) eqn:Hasset; [done|].
  destruct (URL_parse h (Some currentUrl)) as [u|] eqn:Hu; [|done]. simpl.
  destruct (inScope v sc (Url.clear_hash u)) eqn:Hscope; [|done].
  intros [= <-]. by exists h, u.
Qed.

(** Links that resolve to URLs differing at most in their fragment are
    queued under one and the same URL, as long as neither [href] text
    trips the asset test. *)
Theorem link_fragment_variants v sc currentUrl h1 h2 u1 u2 :
  h1 ≠ "" → h2 ≠ "" →
  isAssetHref h1 = false → isAssetHref h2 = false →
  URL_parse h1 (Some currentUrl) = Some u1 →
  URL_parse h2 (Some currentUrl) = Some u2 →
  Url.same_up_to_fragment u1 u2 →
  link_target v sc currentUrl (Some h1) = link_target v sc currentUrl (Some h2)
  ∧ ∀ st,
      handleLink URL_parse v sc currentUrl (Some h1) st
      = handleLink URL_parse v sc currentUrl (Some h2) st.
Proof.
  intros Hne1 Hne2 Ha1 Ha2 Hu1 Hu2 Hsame%same_up_to_fragment_clear_hash.
  assert (Htarget : link_target v sc currentUrl (Some h1)
                    = link_target v sc currentUrl (Some h2)).
  { unfold link_target.
    rewrite !bool_decide_eq_false_2, Ha1, Ha2, Hu1, Hu2 by done. simpl.
    by rewrite Hsame. }
  split; [done|]. intros st. by rewrite !handleLink_eq, Htarget.
Qed.

(** The crawler stays in scope: every URL it requests is the normalized
    seed or the serialization, without fragment, of a URL that some
    non-asset [href] resolved to and that passed the scope check of the
    source file. *)
Theorem requests_stay_in_scope v startUrl sc st0 seed st w :
  crawl_init v startUrl = Returned (sc, st0) →
  normalizeUrl startUrl = Returned seed →
  rtc (step v sc) st0 st →
  w ∈ requests st →
  w = seed
  ∨ ∃ currentUrl h u,
      h ≠ "" ∧ isAssetHref h = false
      ∧ URL_parse h (Some currentUrl) = Some u
      ∧ inScope v sc (Url.clear_hash u) = true
      ∧ w = Url.toString (Url.clear_hash u).
Proof.
  intros Hinit Hnorm Hsteps Hw.
  destruct (crawl_init_inv _ _ _ _ _ Hinit) as (seed' & u0 & Hseed & _ & _ & _ & ->).
  assert (seed' = seed) as -> by congruence.
  pose proof (invariant_steps _ _ _ _ _ v sc seed _ _
                (invariant_initial _ _ _ _ _ v sc seed) Hsteps) as Hinv.
  apply (inv_requests _ _ _ _ _ _ _ _ _ Hinv) in Hw.
  apply (inv_visited_reachable _ _ _ _ _ _ _ _ _ Hinv) in Hw.
  apply rtc_inv_r in Hw as [<-|(y & _ & html & _ & _ & Hlink)]; [by left|].
  right. apply list_elem_of_omap in Hlink as (href & _ & Htarget).
  apply link_target_Some in Htarget as (h & u & _ & ? & ? & ? & ? & ?).
  by exists y, h, u.
Qed.

Lemma pages_follow_requests_step v sc st st' :
  step v sc st st' →
  url <$> pages st = filter (λ u, falsy (fetchPage u) = false) (requests st) →
  url <$> pages st' = filter (λ u, falsy (fetchPage u) = false) (requests st').
Proof.
  intros (u & rest & Hq & Hbody) Hst.
  destruct (decide (u ∈ visited st)) as [Hin|Hin].
  { rewrite loop_body_visited in Hbody by done. by injection Hbody as <-. }
  destruct (falsy (fetchPage u)) eqn:Hf.
  { rewrite loop_body_dropped in Hbody by done. injection Hbody as <-. simpl.
    rewrite filter_app, filter_cons_False, filter_nil, app_nil_r by congruence.
    done. }
  pose proof Hf as (html & Hhtml & Hne)%falsy_false.
  rewrite (loop_body_page _ _ _ _ _ _ _ _ html) in Hbody by done.
  injection Hbody as <-. simpl.
  rewrite fmap_app, filter_app, filter_cons_True, filter_nil by done.
  by rewrite Hst.
Qed.

Lemma pages_follow_requests_steps v sc st st' :
  rtc (step v sc) st st' →
  url <$> pages st = filter (λ u, falsy (fetchPage u) = false) (requests st) →
  url <$> pages st' = filter (λ u, falsy (fetchPage u) = false) (requests st').
Proof.
  induction 1 as [|st1 st2 st3 H12 _ IH]; [done|].
  intros H1. by eapply IH, pages_follow_requests_step.
Qed.

(** The pages come in the order of the requests: their URLs are the
    requested URLs whose fetch gave a non-empty body, one page each. *)
Theorem pages_follow_requests v startUrl sc st0 st :
  crawl_init v startUrl = Returned (sc, st0) →
  rtc (step v sc) st0 st →
  url <$> pages st = filter (λ u, falsy (fetchPage u) = false) (requests st).
Proof.
  intros (seed & u0 & _ & _ & _ & _ & ->)%crawl_init_inv Hsteps.
  by apply (pages_follow_requests_steps _ _ _ _ Hsteps).
Qed.

(** What a page holds: the text Turndown makes of the cleaned tree of the
    body that was fetched under the page's URL. *)
Theorem pages_hold_cleaned_content v startUrl sc st0 st p :
  crawl_init v startUrl = Returned (sc, st0) →
  rtc (step v sc) st0 st →
  p ∈ pages st →
  ∃ html,
    fetchPage (url p) = Some html ∧ html ≠ ""
    ∧ content p = turndown (html_xml (cleanHtmlContent v (load html))).
Proof.
  intros Hinit Hsteps Hp.
  destruct (invariant_reached _ _ _ _ _ v startUrl sc st0 st Hinit Hsteps)
    as (seed & Hinv).
  apply (inv_pages _ _ _ _ _ _ _ _ _ Hinv) in Hp as (_ & html & ? & ? & ->).
  by exists html.
Qed.

Lemma crawl_loop_pass v sc fuel st currentUrl rest st' :
  queue st = currentUrl :: rest →
  loop_body v sc currentUrl (set_queue rest st) = Returned st' →
  crawl_loop v sc (S fuel) st = crawl_loop v sc fuel st'.
Proof. intros Hq Hbody. simpl. by rewrite Hq, Hbody. Qed.

Lemma crawl_loop_done v sc fuel st :
  queue st = [] → crawl_loop v sc fuel st = Some (Returned st).
Proof. intros Hq. destruct fuel; simpl; by rewrite Hq. Qed.

(** A seed that cannot be fetched, or comes with an empty body, ends the
    crawl after one request: no page, and an output of the title alone. *)
Theorem unfetched_seed_gives_title_only v startUrl sc st0 seed fuel :
  crawl_init v startUrl = Returned (sc, st0) →
  normalizeUrl startUrl = Returned seed →
  falsy (fetchPage seed) = true →
  crawl_loop v sc (S fuel) st0
  = Some (Returned (mkState [] {[seed]} [] [seed]))
  ∧ crawlWebsite v (S fuel) startUrl = Some (Returned ([], render_title)).
Proof.
  intros Hinit Hnorm Hf.
  destruct (crawl_init_inv _ _ _ _ _ Hinit) as (seed' & u0 & Hseed & _ & _ & _ & ->).
  assert (seed' = seed) as -> by congruence.
  assert (Hrun : crawl_loop v sc (S fuel) (mkState [seed] ∅ [] [])
                 = Some (Returned (mkState [] {[seed]} [] [seed]))).
  { rewrite (crawl_loop_pass v sc fuel (mkState [seed] ∅ [] []) seed []
               (log_request seed (visited_add seed (mkState [] ∅ [] []))));
      [|done|by apply loop_body_dropped; [set_solver|]].
    rewrite crawl_loop_done by done.
    unfold log_request, visited_add. cbn [queue visited pages requests].
    by rewrite (right_id_L ∅ (∪)). }
  split; [done|]. unfold crawlWebsite. by rewrite Hinit, Hrun.
Qed.


(** Discovery filters on the visited set: what a pass appends to the
    queue is not visited at the end of the pass, so a page never queues
    itself nor a page already crawled. *)
Theorem pass_queues_unvisited_only v sc st st' currentUrl rest :
  queue st = currentUrl :: rest →
  step v sc st st' →
  ∃ added,
    queue st' = rest ++ added
    ∧ visited st' = {[currentUrl]} ∪ visited st
    ∧ ∀ w, w ∈ added → w ∉ visited st'.
Proof.
  intros Hq (u & rest' & Hq' & Hbody).
  assert (u = currentUrl ∧ rest' = rest) as [-> ->]
    by (rewrite Hq in Hq'; by injection Hq').
  destruct (decide (currentUrl ∈ visited st)) as [Hin|Hin].
  { rewrite loop_body_visited in Hbody by done. injection Hbody as <-.
    exists []. simpl. rewrite app_nil_r. split_and!; [done|set_solver|].
    by intros w ?%elem_of_nil. }
  destruct (falsy (fetchPage currentUrl)) eqn:Hf.
  { rewrite loop_body_dropped in Hbody by done. injection Hbody as <-.
    exists []. simpl. rewrite app_nil_r. split_and!; [done..|].
    by intros w ?%elem_of_nil. }
  apply falsy_false in Hf as (html & Hhtml & Hne).
  rewrite (loop_body_page _ _ _ _ _ _ _ _ html) in Hbody by done.
  injection Hbody as <-. eexists. simpl. split_and!; [done..|].
  by intros w [? _]%list_elem_of_filter.
Qed.

(** ** The write *)

Variable writeFileSync : string → string → result unit.

Local Abbreviation crawlWebsite_writing :=
  (crawlWebsite_writing URL_parse fetch load html_xml turndown writeFileSync).
Local Abbreviation main :=
  (main URL_parse fetch load html_xml turndown writeFileSync).

(** What the write comes to, after a crawl that ended. *)
Lemma crawlWebsite_writing_eq v fuel startUrl outputFile :
  crawlWebsite_writing v fuel startUrl outputFile
  = match crawlWebsite v fuel startUrl with
    | None => None
    | Some (Threw e) => Some (Threw e)
    | Some (Returned (ps, outputMarkdown)) =>
        match writeFileSync outputFile outputMarkdown with
        | Returned _ => Some (Returned (ps, outputMarkdown))
        | Threw e => Some (Threw e)
        end
    end.
Proof.
  unfold crawlWebsite_writing.
  destruct (crawlWebsite v fuel startUrl) as [[[ps out]|e]|]; [|done..].
  by destruct (writeFileSync outputFile out).
Qed.


(** ** The program *)

(** [main] leaves with status 1 in two cases only, whatever the web
    holds: fewer than three entries in [process.argv], or a URL argument
    the parser refuses. *)
Theorem main_exits_iff v fuel argv code stderr :
  main v fuel argv = Some (Exited code stderr)
  ↔ code = 1
    ∧ ((length argv < 3
        ∧ stderr = "Usage: ts-node crawler.ts <URL> [output-file]")
       ∨ (∃ s, argv !! 2 = Some s ∧ URL_parse s None = None
               ∧ stderr = "Please provide a valid URL.")).
Proof.
  unfold main. case_bool_decide as Hlen.
  { split.
    - intros [= <- <-]. split; [done|]. by left.
    - intros [-> [[_ ->]|(s & Hs%lookup_lt_Some & _)]]; [done|lia]. }
  destruct (lookup_lt_is_Some_2 argv 2) as [s Hs]; [lia|].
  rewrite Hs. simpl. unfold URL_new.
  destruct (URL_parse s None) as [u|] eqn:Hu.
  - split.
    + by destruct (crawlWebsite_writing _ _ _ _) as [[[ps out]|e]|].
    + intros [_ [[? _]|(s' & Hs' & Hnone & _)]]; [lia|congruence].
  - split.
    + intros [= <- <-]. split; [done|]. right. by exists s.
    + intros [-> [[? _]|(s' & Hs' & Hnone & ->)]]; [lia|done].
Qed.

(** When [main] writes a file, it is the file named by the fourth entry
    of [process.argv], or [output.md] when that entry is missing or
    empty; the text is the rendering of the pages of a crawl of the third
    entry that ran to its end, and no two of these pages share a URL. *)
Theorem main_writes_the_crawl v fuel argv outputFile outputMarkdown :
  main v fuel argv = Some (Wrote outputFile outputMarkdown) →
  ((outputFile = "output.md" ∧ (argv !! 3 = None ∨ argv !! 3 = Some ""))
   ∨ (outputFile ≠ "" ∧ argv !! 3 = Some outputFile))
  ∧ ∃ startUrl ps,
      argv !! 2 = Some startUrl
      ∧ crawlWebsite v fuel startUrl = Some (Returned (ps, outputMarkdown))
      ∧ outputMarkdown = render ps
      ∧ NoDup (url <$> ps).
Proof.
  unfold main. case_bool_decide as Hlen; [done|].
  destruct (lookup_lt_is_Some_2 argv 2) as [s Hs]; [lia|].
  rewrite Hs. simpl. destruct (URL_new URL_parse s None); [|done].
  rewrite crawlWebsite_writing_eq.
  destruct (crawlWebsite v fuel s) as [[[ps out]|e]|] eqn:Hcrawl; [|done..].
  destruct (writeFileSync _ out); [|done].
  intros [= <- <-]. split.
  - destruct (argv !! 3) as [f|]; [|left; auto].
    case_bool_decide as Hf; [left; subst; auto | right; auto].
  - exists s, ps.
    destruct (crawlWebsite_pages_once _ _ _ _ _ _ _ _ _ _ Hcrawl) as [Hnodup ->].
    done.
Qed.


End CrawlProperties.

(** ** Concrete runs of the further properties *)

Lemma cleanHtmlContent_keeps_clean_tree_witness :
  cleanHtmlContent IndexTs (Sample.document [Element "p" [] [Text "Home"]])
  = Sample.document [Element "p" [] [Text "Home"]].
Proof.
  apply (cleanHtmlContent_keeps_clean_tree IndexTs).
  unfold noise_free. apply Forall_forall.
  repeat (apply List.Forall_cons; [reflexivity|]). apply List.Forall_nil.
Defined.

Lemma isAssetHref_any_prefix_witness :
  isAssetHref ("https://a.com" +:+ "/img/Logo.PNG") = true.
Proof. apply (isAssetHref_any_prefix "https://a.com" "/img/Logo.PNG"). reflexivity. Defined.

Lemma www_twin_is_same_domain_witness :
  (Url.hostname (mkURL "https" "" "" (Some "www.a.com") None "/" None None)
   = "www." +:+ "a.com" →
   isSameDomain (mkScope "a.com" "/")
     (mkURL "https" "" "" (Some "www.a.com") None "/" None None) = true)
  ∧ (Url.hostname (mkURL "https" "" "" (Some "www.a.com") None "/" None None)
     = "a.com" →
     isSameDomain (mkScope ("www." +:+ "a.com") "/")
       (mkURL "https" "" "" (Some "www.a.com") None "/" None None) = true).
Proof. apply (www_twin_is_same_domain "a.com" "/"). reflexivity. Defined.

Lemma normalizeUrl_idempotent_witness :
  normalizeUrl Sample.URL_parse "https://a.com/x?q=1#sec1"
  = Returned "https://a.com/x?q=1"
  ∧ normalizeUrl Sample.URL_parse "https://a.com/x?q=1"
    = Returned "https://a.com/x?q=1".
Proof.
  apply (normalizeUrl_idempotent Sample.URL_parse "https://a.com/x?q=1#sec1"
           (mkURL "https" "" "" (Some "a.com") None "/x" (Some "q=1") (Some "sec1")));
    reflexivity.
Defined.

Lemma seed_in_own_scope_witness :
  inScope IndexTs (mkScope "a.com" "/docs/")
    (mkURL "https" "" "" (Some "a.com") None "/docs" None None)
  = true.
Proof.
  apply (seed_in_own_scope Sample.URL_parse IndexTs "https://a.com/docs#intro"
           (mkScope "a.com" "/docs/") (mkState ["https://a.com/docs"] ∅ [] [])
           "https://a.com/docs").
  - vm_compute. reflexivity.
  - reflexivity.
  - reflexivity.
Defined.

Lemma requests_stay_in_scope_witness :
  "https://a.com/x" = "https://a.com/"
  ∨ ∃ currentUrl h u,
      h ≠ "" ∧ isAssetHref h = false
      ∧ Sample.URL_parse h (Some currentUrl) = Some u
      ∧ inScope IndexTs (mkScope "a.com" "/") (Url.clear_hash u) = true
      ∧ "https://a.com/x" = Url.toString (Url.clear_hash u).
Proof.
  apply (requests_stay_in_scope Sample.URL_parse (Sample.fetch Sample.dup_site)
           (Sample.load Sample.dup_site) Sample.html_xml Sample.turndown
           IndexTs "https://a.com/#top" (mkScope "a.com" "/")
           (mkState ["https://a.com/"] ∅ [] []) "https://a.com/"
           Sample.dup_final).
  - vm_compute. reflexivity.
  - reflexivity.
  - apply (crawl_loop_steps _ _ _ _ _ _ _ 5). vm_compute. reflexivity.
  - apply list_elem_of_further, list_elem_of_here.
Defined.

Lemma pages_follow_requests_witness :
  url <$> pages Sample.dup_final
  = filter (λ u, falsy (fetchPage (Sample.fetch Sample.dup_site) u) = false)
      (requests Sample.dup_final).
Proof.
  apply (pages_follow_requests Sample.URL_parse (Sample.fetch Sample.dup_site)
           (Sample.load Sample.dup_site) Sample.html_xml Sample.turndown
           IndexTs "https://a.com/#top" (mkScope "a.com" "/")
           (mkState ["https://a.com/"] ∅ [] [])).
  - vm_compute. reflexivity.
  - apply (crawl_loop_steps _ _ _ _ _ _ _ 5). vm_compute. reflexivity.
Defined.

Lemma pages_hold_cleaned_content_witness :
  ∃ html,
    fetchPage (Sample.fetch Sample.dup_site) "https://a.com/x" = Some html
    ∧ html ≠ ""
    ∧ "hometopself"
      = Sample.turndown
          (Sample.html_xml
             (cleanHtmlContent IndexTs (Sample.load Sample.dup_site html))).
Proof.
  apply (pages_hold_cleaned_content Sample.URL_parse (Sample.fetch Sample.dup_site)
           (Sample.load Sample.dup_site) Sample.html_xml Sample.turndown
           IndexTs "https://a.com/#top" (mkScope "a.com" "/")
           (mkState ["https://a.com/"] ∅ [] []) Sample.dup_final
           (mkPage "https://a.com/x" "hometopself")).
  - vm_compute. reflexivity.
  - apply (crawl_loop_steps _ _ _ _ _ _ _ 5). vm_compute. reflexivity.
  - apply list_elem_of_further, list_elem_of_here.
Defined.

Lemma unfetched_seed_gives_title_only_witness :
  crawl_loop Sample.URL_parse (Sample.fetch Sample.flaky_site)
    (Sample.load Sample.flaky_site) Sample.html_xml Sample.turndown
    IndexTs (mkScope "a.com" "/a/") 1 (mkState ["https://a.com/a"] ∅ [] [])
  = Some (Returned (mkState [] {[ "https://a.com/a" ]} [] ["https://a.com/a"]))
  ∧ crawlWebsite Sample.URL_parse (Sample.fetch Sample.flaky_site)
      (Sample.load Sample.flaky_site) Sample.html_xml Sample.turndown
      IndexTs 1 "https://a.com/a"
    = Some (Returned ([], render_title)).
Proof.
  apply (unfetched_seed_gives_title_only Sample.URL_parse
           (Sample.fetch Sample.flaky_site) (Sample.load Sample.flaky_site)
           Sample.html_xml Sample.turndown IndexTs "https://a.com/a"
           (mkScope "a.com" "/a/") (mkState ["https://a.com/a"] ∅ [] [])
           "https://a.com/a" 0).
  - vm_compute. reflexivity.
  - reflexivity.
  - reflexivity.
Defined.

Lemma pass_queues_unvisited_only_witness :
  ∃ added,
    queue dup_first = [] ++ added
    ∧ visited dup_first = {[ "https://a.com/" ]} ∪ ∅
    ∧ ∀ w, w ∈ added → w ∉ visited dup_first.
Proof.
  apply (pass_queues_unvisited_only Sample.URL_parse (Sample.fetch Sample.dup_site)
           (Sample.load Sample.dup_site) Sample.html_xml Sample.turndown
           IndexTs (mkScope "a.com" "/")
           (mkState ["https://a.com/"] ∅ [] []) dup_first "https://a.com/" []).
  - reflexivity.
  - exists "https://a.com/", []. split; [reflexivity|]. vm_compute. reflexivity.
Defined.

Lemma main_writes_the_crawl_witness :
  (("output.md" = "output.md"
    ∧ (["node"; "crawler.ts"; "https://a.com/#top"] !! 3 = None
       ∨ ["node"; "crawler.ts"; "https://a.com/#top"] !! 3 = Some ""))
   ∨ ("output.md" ≠ ""
      ∧ ["node"; "crawler.ts"; "https://a.com/#top"] !! 3 = Some "output.md"))
  ∧ ∃ startUrl ps,
      ["node"; "crawler.ts"; "https://a.com/#top"] !! 2 = Some startUrl
      ∧ crawlWebsite Sample.URL_parse (Sample.fetch Sample.dup_site)
          (Sample.load Sample.dup_site) Sample.html_xml Sample.turndown
          IndexTs 5 startUrl
        = Some (Returned (ps, render (pages Sample.dup_final)))
      ∧ render (pages Sample.dup_final) = render ps
      ∧ NoDup (url <$> ps).
Proof.
  apply (main_writes_the_crawl Sample.URL_parse (Sample.fetch Sample.dup_site)
           (Sample.load Sample.dup_site) Sample.html_xml Sample.turndown
           Sample.writeFileSync IndexTs 5 ["node"; "crawler.ts"; "https://a.com/#top"]
           "output.md" (render (pages Sample.dup_final))).
  vm_compute. reflexivity.
Defined.

Lemma link_fragment_variants_witness :
  link_target Sample.URL_parse IndexTs (mkScope "a.com" "/") "https://a.com/"
    (Some "/x#sec1")
  = link_target Sample.URL_parse IndexTs (mkScope "a.com" "/") "https://a.com/"
      (Some "https://a.com/x#sec2")
  ∧ ∀ st,
      handleLink Sample.URL_parse IndexTs (mkScope "a.com" "/") "https://a.com/"
        (Some "/x#sec1") st
      = handleLink Sample.URL_parse IndexTs (mkScope "a.com" "/") "https://a.com/"
          (Some "https://a.com/x#sec2") st.
Proof.
  apply (link_fragment_variants Sample.URL_parse IndexTs (mkScope "a.com" "/")
           "https://a.com/" "/x#sec1" "https://a.com/x#sec2"
           (mkURL "https" "" "" (Some "a.com") None "/x" None (Some "sec1"))
           (mkURL "https" "" "" (Some "a.com") None "/x" None (Some "sec2")));
    by vm_compute.
Defined.


(** On the file system of [Sample.writeFileSync] the two ends of that run:
    the rendering written to [site.md], and the promise rejected with the
    error of the write under [/missing/]. *)
Example main_write_and_rejection :
  main Sample.URL_parse (Sample.fetch Sample.dup_site)
    (Sample.load Sample.dup_site) Sample.html_xml Sample.turndown
    Sample.writeFileSync
    IndexTs 5 ["node"; "crawler.ts"; "https://a.com/#top"; "site.md"]
  = Some (Wrote "site.md" (render (pages Sample.dup_final)))
  ∧ main Sample.URL_parse (Sample.fetch Sample.dup_site)
      (Sample.load Sample.dup_site) Sample.html_xml Sample.turndown
      Sample.writeFileSync
      IndexTs 5 ["node"; "crawler.ts"; "https://a.com/#top"; "/missing/site.md"]
    = Some (Rejected (SystemError "ENOENT")).
Proof. split; by vm_compute. Qed.
